(** * quickpin: the SSE notification view and the profile model

    A shallow embedding of [lib/app/views/notification.py] (the
    [NotificationView] that streams Redis pub/sub messages to a browser as
    server-sent events) and of [lib/model/profile.py] ([Profile],
    [ProfileUsername], [ProfileNote]), with the properties the specification
    states about them.

    Conventions.
    - A Python [str] is represented by its UTF-8 encoding, held in a Rocq
      [string] (a sequence of 8-bit characters).  Concatenation of [str]
      values is concatenation of encodings, and the code-point order Python
      uses to compare two [str] is the byte-wise lexicographic order of their
      encodings, which is [String.compare].
    - A Python [bytes] is a [list byte].
    - A Python [int] is a [Z].
    - An exception is a value of [exn]; code that may raise returns a
      [result]. *)

From Stdlib Require Import ZArith List String Ascii Bool Lia DecimalString DecimalPos DecimalZ.
From Stdlib Require Import Sorted Permutation.
From Stdlib.Strings Require Import Byte.
From Stdlib Require Decimal DecimalFacts DecimalN.
From Stdlib Require Import NArith Nnat.
Import ListNotations.

Local Open Scope string_scope.
Local Open Scope Z_scope.

(** ** Exceptions and results *)

Inductive exn : Type :=
| NotAcceptable (message : string)   (* werkzeug.exceptions.NotAcceptable *)
| UnicodeDecodeError                 (* bytes.decode on ill-formed input *)
| AttributeError                     (* attribute missing on the receiver *)
| IndexError                         (* str.format with too few arguments *)
| ValueError                         (* str.format on a malformed template *)
| KeyError                           (* dict lookup of a missing key *)
| BrokerUnavailable                  (* the bus cannot be reached *)
| BrokerConnectionLost.              (* the bus dropped the connection *)

Inductive result (A : Type) : Type :=
| Ok (a : A)
| Raise (e : exn).

Arguments Ok {A} a.
Arguments Raise {A} e.

Definition rbind {A B} (r : result A) (k : A -> result B) : result B :=
  match r with
  | Ok a => k a
  | Raise e => Raise e
  end.

Notation "'try!' x <- r ; k" := (rbind r (fun x => k))
  (at level 10, x name, r at level 100, k at level 200).

(** ** Python text *)

Module Py.

Definition bytes := list byte.

(** The newline character written [\n] in the source's literals. *)
Definition nl : string := String (ascii_of_nat 10) EmptyString.

(** [str(n)] for an [int]: decimal digits, a leading [-] when negative. *)
Definition str_of_int (n : Z) : string := NilZero.string_of_int (Z.to_int n).

(** *** [bytes.decode('utf8')]

    The strict decoder accepts exactly the well-formed UTF-8 byte sequences
    (no overlong forms, no surrogates, nothing above U+10FFFF) and raises
    [UnicodeDecodeError] on anything else. *)

Definition between (lo hi b : N) : bool := (N.leb lo b && N.leb b hi)%bool.

Definition cont (b : N) : bool := between 128 191 b.

(** Second byte of a three-byte form, constrained by the lead byte. *)
Definition second3 (b0 b1 : N) : bool :=
  if N.eqb b0 224 then between 160 191 b1
  else if N.eqb b0 237 then between 128 159 b1
  else (between 225 239 b0 && cont b1)%bool.

(** Second byte of a four-byte form, constrained by the lead byte. *)
Definition second4 (b0 b1 : N) : bool :=
  if N.eqb b0 240 then between 144 191 b1
  else if N.eqb b0 244 then between 128 143 b1
  else (between 241 243 b0 && cont b1)%bool.

Fixpoint well_formed (bs : list N) : bool :=
  match bs with
  | [] => true
  | b0 :: r0 =>
      if N.leb b0 127 then well_formed r0
      else
        match r0 with
        | [] => false
        | b1 :: r1 =>
            if (between 194 223 b0 && cont b1)%bool then well_formed r1
            else
              match r1 with
              | [] => false
              | b2 :: r2 =>
                  if (second3 b0 b1 && cont b2)%bool then well_formed r2
                  else
                    match r2 with
                    | [] => false
                    | b3 :: r3 =>
                        if (second4 b0 b1 && cont b2 && cont b3)%bool
                        then well_formed r3
                        else false
                    end
              end
        end
  end.

Definition decode_utf8 (bs : bytes) : result string :=
  if well_formed (map Byte.to_N bs)
  then Ok (string_of_list_byte bs)
  else Raise UnicodeDecodeError.

(** [encode] of a text is the identity on the representation. *)
Definition encode_utf8 (s : string) : bytes := list_byte_of_string s.

(** [s.startswith(p)]. *)
Fixpoint startswith (s p : string) {struct p} : bool :=
  match p with
  | EmptyString => true
  | String a p' =>
      match s with
      | EmptyString => false
      | String b s' => (Ascii.eqb a b && startswith s' p')%bool
      end
  end.

(** *** [str.format]

    The argument values the view formats. *)
Inductive value : Type :=
| VInt (n : Z)
| VStr (s : string).

Definition str (v : value) : string :=
  match v with
  | VInt n => str_of_int n
  | VStr s => s
  end.

Definition lbrace : ascii := ascii_of_nat 123.
Definition rbrace : ascii := ascii_of_nat 125.

(** [template.format( *args )] for templates whose replacement fields are
    the automatically numbered [{}]; [{{] and [}}] are the escaped braces.
    A field with no argument left is [IndexError]; surplus arguments are
    ignored; a lone brace is [ValueError].  Named, numbered and formatted
    fields, which the view does not use, are not modelled and are answered
    with [ValueError] as well. *)
Fixpoint format (template : string) (args : list value) : result string :=
  match template with
  | EmptyString => Ok EmptyString
  | String c rest =>
      if Ascii.eqb c lbrace then
        match rest with
        | String d rest' =>
            if Ascii.eqb d rbrace then
              match args with
              | [] => Raise IndexError
              | a :: args' =>
                  try! tail <- format rest' args'; Ok (str a ++ tail)%string
              end
            else if Ascii.eqb d lbrace then
              try! tail <- format rest' args; Ok (String lbrace tail)
            else Raise ValueError
        | EmptyString => Raise ValueError
        end
      else if Ascii.eqb c rbrace then
        match rest with
        | String d rest' =>
            if Ascii.eqb d rbrace then
              try! tail <- format rest' args; Ok (String rbrace tail)
            else Raise ValueError
        | EmptyString => Raise ValueError
        end
      else
        try! tail <- format rest args; Ok (String c tail)
  end.

End Py.

(** ** The notification view ([lib/app/views/notification.py]) *)

Module Notification.

Import Py.

(** *** The broker, as the view sees it *)

(** A message dictionary as [pubsub.listen()] produces it.  [channel] is a
    [bytes]; [data] is a [bytes] for a published message and an [int] (the
    subscription count) for a subscription acknowledgement. *)
Inductive payload : Type :=
| PBytes (b : bytes)
| PInt (n : Z).

Record message : Type := {
  type : string;
  pattern : option bytes;
  channel : bytes;
  data : payload
}.

(** The pub/sub object: the keyword it was created with and the channels it
    is subscribed to. *)
Record pubsub : Type := {
  ignore_subscribe_messages : bool;
  channels : list string
}.

(** What asking the event source for its next item does: it hands over a
    message, it ends, or it raises because the bus dropped the connection. *)
Inductive pull : Type :=
| Yields (m : message)
| Ends
| Fails.

(** The calls the view makes that open or release broker resources.
    [Close] is the release the pub/sub object offers. *)
Inductive call : Type :=
| GetRedis (config : list (string * string))
| NewPubSub (ignore : bool)
| Subscribe (names : list string)
| Close.

(** The part of the process the view acts on: the [redis] section of the
    configuration, whether the bus can be reached, and the calls made so
    far (oldest first). *)
Record world : Type := {
  redis_config : list (string * string);
  reachable : bool;
  calls : list call
}.

Definition record (c : call) (w : world) : world :=
  {| redis_config := redis_config w;
     reachable := reachable w;
     calls := calls w ++ [c] |}.

Definition is_subscribe (c : call) : bool :=
  match c with Subscribe _ => true | _ => false end.

Definition is_new_pubsub (c : call) : bool :=
  match c with NewPubSub _ => true | _ => false end.

Definition is_close (c : call) : bool :=
  match c with Close => true | _ => false end.

Definition subscribe_count (w : world) : nat := List.length (filter is_subscribe (calls w)).
Definition handle_count (w : world) : nat := List.length (filter is_new_pubsub (calls w)).
Definition close_count (w : world) : nat := List.length (filter is_close (calls w)).

(** Modelled from the spec: the broker client behind [app.database.get_redis]
    (lib/app/database.py and the bus library it wraps are not under src/).
    Section 4.2: a data event is a published message; "Subscription
    acknowledgement noise from the bus (e.g. you are now subscribed to X)
    must be suppressed -- the EventSource yields only genuine data events,
    never meta/control messages". *)
Definition is_data (m : message) : bool :=
  (String.eqb (type m) "message" || String.eqb (type m) "pmessage")%bool.

Definition passes (p : pull) : bool :=
  match p with
  | Yields m => is_data m
  | Ends | Fails => true
  end.

(** Modelled from the spec: the event source of a pub/sub object over what
    the bus sends on its connection (section 4.2, as above).  A source
    opened with acknowledgements ignored lets only data events through; one
    opened without hands over everything. *)
Definition listen (ps : pubsub) (wire : list pull) : list pull :=
  if ignore_subscribe_messages ps then filter passes wire else wire.

(** Modelled from the spec: [pubsub.subscribe( *names )] (section 4.2: it
    "establishes a dedicated receive handle for exactly the given channels";
    section 4.5: it fails with [BrokerUnavailable] when the bus cannot be
    reached).  The pub/sub object is built from the configuration alone
    (lines 33-34) and is never handed the view's [CHANNELS], so it cannot
    tell a registry name from any other: the names are taken as given. *)
Definition subscribe (names : list string) (ps : pubsub) (w : world)
  : result pubsub * world :=
  let w' := record (Subscribe names) w in
  if reachable w
  then (Ok {| ignore_subscribe_messages := ignore_subscribe_messages ps;
              channels := channels ps ++ names |}, w')
  else (Raise BrokerUnavailable, w').

(** *** The view class *)

(** The class attribute [index] reads through [self.__class__]. *)
Record view : Type := { CHANNELS : list string }.

(** Lines 22-25. *)
Definition NotificationView : view := {| CHANNELS := ["avatar"; "profile"] |}.

(** [request.headers.get('Accept')]: the header's value, [None] when the
    request has none. *)
Record request : Type := { accept : option string }.

Definition header_is (h : option string) (v : string) : bool :=
  match h with
  | Some s => String.eqb s v
  | None => false
  end.

(** *** [_stream] as a generator *)

(** Where the generator stands between two resumptions. *)
Inductive outcome : Type :=
| Returned            (* the loop ended: StopIteration *)
| Raised (e : exn)    (* an exception left the body *)
| Closed.             (* GeneratorExit was delivered at the yield *)

Inductive phase : Type :=
| NotStarted                (* created, body not entered *)
| AtPriming                 (* suspended at line 49 *)
| AtFrame (event_id : Z)    (* suspended at line 57, with this event_id *)
| Done (o : outcome).

Record generator : Type := {
  source : pubsub;
  at_ : phase
}.

Record response : Type := {
  body : generator;
  content_type : string
}.

(** Line 44: calling [_stream] runs none of its body; it makes the generator
    object that [start], [resume] and [close_generator] below act on. *)
Definition _stream (pubsub_ : pubsub) : generator :=
  {| source := pubsub_; at_ := NotStarted |}.

(** Lines 40-41. *)
Definition not_acceptable_message : string :=
  ("This endpoint is only for use with server-sent " ++ "events (SSE).")%string.

(** Lines 29-42: the body of the method, which the [login_required]
    decorator of line 27 wraps.  [cls] stands for [self.__class__]. *)
Definition index (cls : view) (req : request) (w : world)
  : result response * world :=
  if header_is (accept req) "text/event-stream" then
    let w1 := record (GetRedis (redis_config w)) w in
    let pubsub0 := {| ignore_subscribe_messages := true; channels := [] |} in
    let w2 := record (NewPubSub true) w1 in
    match subscribe (CHANNELS cls) pubsub0 w2 with
    | (Ok pubsub1, w3) =>
        (Ok {| body := _stream pubsub1;
               content_type := "text/event-stream" |}, w3)
    | (Raise e, w3) => (Raise e, w3)
    end
  else
    (Raise (NotAcceptable not_acceptable_message), w).

(** The literal of line 57. *)
Definition frame_template : string :=
  ("id: {}" ++ nl ++ "event: {}" ++ nl ++ "data: {}" ++ nl ++ nl)%string.

(** Line 57: the formatted frame. *)
Definition encode (event_id : Z) (channel data : string) : result string :=
  format frame_template [VInt event_id; VStr channel; VStr data].

(** [message['data'].decode('utf8')]: an [int] has no [decode]. *)
Definition decode_payload (p : payload) : result string :=
  match p with
  | PBytes b => decode_utf8 b
  | PInt _ => Raise AttributeError
  end.

(** Lines 55-57: one turn of the loop body, up to the yielded string. *)
Definition loop_body (event_id : Z) (m : message) : result string :=
  try! channel <- decode_utf8 (channel m);
  try! data <- decode_payload (data m);
  encode event_id channel data.

(** The [for] statement asks the source for its next item with the counter at
    [event_id]. *)
Definition iterate (event_id : Z) (p : pull) : option string * phase :=
  match p with
  | Yields m =>
      match loop_body event_id m with
      | Ok frame => (Some frame, AtFrame event_id)
      | Raise e => (None, Done (Raised e))
      end
  | Ends => (None, Done Returned)
  | Fails => (None, Done (Raised BrokerConnectionLost))
  end.

(** Lines 47-49: entering the body yields the empty string at once, before
    the source is touched. *)
Definition start (ph : phase) : option string * phase :=
  match ph with
  | NotStarted => (Some EmptyString, AtPriming)
  | _ => (None, ph)
  end.

(** [next(gen)]: run the body from where it is suspended to its next yield.
    The first resumption is [start]; the second sets [event_id = 1] (line 52)
    and enters the loop; a later one runs line 58 and goes round the loop. *)
Definition resume (ph : phase) (p : pull) : option string * phase :=
  match ph with
  | NotStarted => start ph
  | AtPriming => iterate 1 p
  | AtFrame event_id => iterate (event_id + 1) p
  | Done o => (None, Done o)
  end.

(** [gen.close()]: GeneratorExit at the yield; the body has no handler and no
    [finally], so nothing more of it runs. *)
Definition close_generator (ph : phase) : phase :=
  match ph with
  | Done o => Done o
  | _ => Done Closed
  end.

(** *** The connection, driven by the server *)

(** What happens to an open connection: the event source produces
    something, the client goes away, or the process shuts down.  In the last
    two the server closes the response iterable. *)
Inductive signal : Type :=
| Source (p : pull)
| ClientGone
| Shutdown.

Record connection : Type := {
  gen : generator;
  written : list string;     (* what was written to the client, in order *)
  env : world
}.

Definition set_phase (c : connection) (ph : phase) (out : option string)
  : connection :=
  {| gen := {| source := source (gen c); at_ := ph |};
     written := match out with
                | Some s => written c ++ [s]
                | None => written c
                end;
     env := env c |}.

(** The server takes the response: its call of [next] writes what the
    generator yields first. *)
Definition open (r : response) (w : world) : connection :=
  let '(out, ph) := start (at_ (body r)) in
  set_phase {| gen := body r; written := []; env := w |} ph out.

Definition react (s : signal) (c : connection) : connection :=
  match at_ (gen c) with
  | Done _ => c
  | ph =>
      match s with
      | Source p => let '(out, ph') := resume ph p in set_phase c ph' out
      | ClientGone | Shutdown => set_phase c (close_generator ph) None
      end
  end.

Definition drive (signals : list signal) (c : connection) : connection :=
  fold_left (fun c s => react s c) signals c.

(** A whole connection: the response of [index], then the signals. *)
Definition serve (r : response) (w : world) (signals : list signal) : connection :=
  drive signals (open r w).

(** A whole connection fed by the bus: what the bus sends reaches the
    generator through the event source of the response's pub/sub object. *)
Definition connect (r : response) (w : world) (wire : list pull) : connection :=
  serve r w (map Source (listen (source (body r)) wire)).


(** Whether [index] lets the request past the content negotiation. *)
Definition accepted (cls : view) (req : request) (w : world) : bool :=
  match fst (index cls req w) with
  | Raise (NotAcceptable _) => false
  | _ => true
  end.

(** *** The frame format of the specification

    Section 6: [id: <sequence_id>\nevent: <channel>\ndata: <payload>\n\n],
    written out as a concatenation. *)
Definition wire_frame (sequence_id : Z) (channel payload : string) : string :=
  ("id: " ++ str_of_int sequence_id ++ nl ++ "event: " ++ channel ++ nl
   ++ "data: " ++ payload ++ nl ++ nl)%string.

(** The frames of a sequence of events (channel, payload), numbered from
    [first] upwards in steps of one. *)
Fixpoint numbered (first : Z) (events : list (string * string)) : list string :=
  match events with
  | [] => []
  | (c, p) :: rest => wire_frame first c p :: numbered (first + 1) rest
  end.

(** A message whose channel and data decode to the event [ev]. *)
Definition decodes_to (m : message) (ev : string * string) : Prop :=
  decode_utf8 (channel m) = Ok (fst ev) /\ decode_payload (data m) = Ok (snd ev).

(** A message whose channel or data is not well-formed UTF-8. *)
Definition undecodable (m : message) : Prop :=
  decode_utf8 (channel m) = Raise UnicodeDecodeError
  \/ exists b, data m = PBytes b /\ decode_utf8 b = Raise UnicodeDecodeError.

(** The counter the next frame will carry. *)
Definition next_event_id (ph : phase) : Z :=
  match ph with
  | AtFrame event_id => event_id + 1
  | _ => 1
  end.

Definition finished (ph : phase) : bool :=
  match ph with Done _ => true | _ => false end.

(** The signals that end a connection: the source ends or fails, the client
    goes away, the process shuts down. *)
Definition teardown (s : signal) : bool :=
  match s with
  | Source (Yields _) => false
  | Source Ends | Source Fails | ClientGone | Shutdown => true
  end.

(** A data event, or no message at all. *)
Definition data_event (p : pull) : Prop :=
  match p with
  | Yields m => is_data m = true
  | Ends | Fails => True
  end.

End Notification.

(** ** Python's [sorted] and [datetime] *)

Module Builtins.

Import Py.

(** One insertion into an ordered list: [x] goes in front of the first
    element that does not have to stay before it. *)
Fixpoint insert {A : Type} (stays_before : A -> A -> bool) (x : A) (l : list A)
  : list A :=
  match l with
  | [] => [x]
  | y :: l' =>
      if stays_before y x then y :: insert stays_before x l' else x :: y :: l'
  end.

(** [sorted(l, key=key, reverse=reverse)] on string keys.  Python's sort
    compares keys with [<] only and is stable, also with [reverse=True]:
    elements with equal keys keep the order they had in [l].  An element
    taken from the front of [l] therefore moves past those of the sorted
    rest whose key is strictly on the other side, and no further. *)
Definition stays_before {A : Type} (key : A -> string) (reverse : bool)
    (y x : A) : bool :=
  if reverse then String.ltb (key x) (key y) else String.ltb (key y) (key x).

Definition sorted {A : Type} (key : A -> string) (reverse : bool) (l : list A)
  : list A :=
  fold_right (insert (stays_before key reverse)) [] l.

(** The order asked for: [a] may stand before [b] when its key is not above
    [b]'s, or not below it with [reverse=True]. *)
Definition in_order {A : Type} (key : A -> string) (reverse : bool)
    (a b : A) : Prop :=
  if reverse
  then String.leb (key b) (key a) = true
  else String.leb (key a) (key b) = true.

(** A [datetime.datetime].  [utcoffset] is [None] for a naive one; for an
    aware one it is what [d.utcoffset()] returns, in minutes east of UTC
    (a whole number of minutes strictly between -1440 and 1440). *)
Record datetime : Type := {
  year : Z; month : Z; day : Z;
  hour : Z; minute : Z; second : Z; microsecond : Z;
  utcoffset : option Z
}.

Fixpoint zeros (n : nat) : string :=
  match n with
  | O => EmptyString
  | S k => String "0" (zeros k)
  end.

(** ['{:0w}'.format(n)] for the non-negative fields of a date. *)
Definition pad (width : nat) (n : Z) : string :=
  let s := str_of_int n in (zeros (width - String.length s) ++ s)%string.

(** The end of the ISO text of an aware [datetime]: the sign of the offset,
    its hours and its minutes, as [+HH:MM]; nothing for a naive one. *)
Definition offset_text (off : option Z) : string :=
  match off with
  | None => EmptyString
  | Some m =>
      ((if Z.ltb m 0 then "-" else "+")
       ++ pad 2 (Z.abs m / 60) ++ ":" ++ pad 2 (Z.abs m mod 60))%string
  end.

(** [d.isoformat()]: [YYYY-MM-DDTHH:MM:SS], followed by [.ffffff] when the
    microseconds are not zero, and by the UTC offset when [d] is aware. *)
Definition isoformat (d : datetime) : string :=
  (pad 4 (year d) ++ "-" ++ pad 2 (month d) ++ "-" ++ pad 2 (day d) ++ "T"
   ++ pad 2 (hour d) ++ ":" ++ pad 2 (minute d) ++ ":" ++ pad 2 (second d)
   ++ (if Z.eqb (microsecond d) 0 then "" else "." ++ pad 6 (microsecond d))
   ++ offset_text (utcoffset d))%string.

(** [d.replace(microsecond=us)]. *)
Definition replace_microsecond (d : datetime) (us : Z) : datetime :=
  {| year := year d; month := month d; day := day d;
     hour := hour d; minute := minute d; second := second d;
     microsecond := us;
     utcoffset := utcoffset d |}.

(** [d[k]] on a dictionary with string keys and values. *)
Fixpoint getitem (d : list (string * string)) (k : string) : result string :=
  match d with
  | [] => Raise KeyError
  | (k', v) :: d' => if String.eqb k' k then Ok v else getitem d' k
  end.

(** [[f(x) for x in l]] where [f] may raise: the first exception leaves the
    comprehension. *)
Fixpoint comprehension {A B : Type} (f : A -> result B) (l : list A)
  : result (list B) :=
  match l with
  | [] => Ok []
  | x :: l' =>
      try! y <- f x;
      try! ys <- comprehension f l';
      Ok (y :: ys)
  end.

End Builtins.

(** ** The profile model ([lib/model/profile.py]) *)

Module Model.

Import Py Builtins.

(** Lines 14-17. *)
Definition SOCIAL_SITES : list (string * string) :=
  [("twitter", "Twitter"); ("instagram", "Instagram")].

(** A date argument of a constructor: [None], a [datetime], or a text handed
    to [dateutil.parser.parse]. *)
Inductive date_arg : Type :=
| NoDate
| ADatetime (d : datetime)
| AText (s : string).

Section Classes.

Set Implicit Arguments.

(** [dateutil.parser.parse], a library function: it returns a [datetime] or
    raises. *)
Variable dateutil_parse : string -> result datetime.

(** [model.label.Label] is not part of these files: its instances, the
    dictionary [Label.as_dict] returns, and the lookup [x['name']] in it,
    whose value is a [str] (the sort of line 167 compares two of them). *)
Variable Label : Type.
Variable label_dict : Type.
Variable label_as_dict : Label -> label_dict.
Variable label_name : label_dict -> string.

(** The column type [Float] of [score]; its values are passed through. *)
Variable float : Type.

(** Lines 222-226, 228-232, 261-265: [None] leaves the attribute unset, a
    [datetime] is stored, anything else is parsed. *)
Definition date_attribute (a : date_arg) : result (option datetime) :=
  match a with
  | NoDate => Ok None
  | ADatetime d => Ok (Some d)
  | AText s => try! d <- dateutil_parse s; Ok (Some d)
  end.

(** Lines 198-232.  A column that was never assigned reads [None]. *)
Record ProfileUsername : Type := {
  pu_id : option Z;
  pu_username : option string;
  pu_start_date : option datetime;
  pu_end_date : option datetime;
  pu_profile_id : option Z
}.

(** Lines 217-232. *)
Definition ProfileUsername_init (username : option string)
    (start_date end_date : date_arg) : result ProfileUsername :=
  try! sd <- date_attribute start_date;
  try! ed <- date_attribute end_date;
  Ok {| pu_id := None;
        pu_username := username;
        pu_start_date := sd;
        pu_end_date := ed;
        pu_profile_id := None |}.

(** Lines 235-265. *)
Record ProfileNote : Type := {
  note_id : option Z;
  note_category : option string;
  note_body : option string;
  note_created_at : option datetime;
  note_profile_id : option Z
}.

(** Lines 255-265. *)
Definition ProfileNote_init (category body : option string)
    (profile_id : option Z) (created_at : date_arg) : result ProfileNote :=
  try! ca <- date_attribute created_at;
  Ok {| note_id := None;
        note_category := category;
        note_body := body;
        note_created_at := ca;
        note_profile_id := profile_id |}.

(** The dictionary of lines 268-274. *)
Record note_dict : Type := {
  nd_id : option Z;
  nd_category : option string;
  nd_body : option string;
  nd_profile_id : option Z;
  nd_created_at : string
}.

(** Lines 267-274: [self.created_at.isoformat()] needs a [created_at]. *)
Definition ProfileNote_as_dict (n : ProfileNote) : result note_dict :=
  match note_created_at n with
  | None => Raise AttributeError
  | Some d =>
      Ok {| nd_id := note_id n;
            nd_category := note_category n;
            nd_body := note_body n;
            nd_profile_id := note_profile_id n;
            nd_created_at := isoformat d |}
  end.

(** Lines 43-143: the columns, and the relationships the two methods below
    read or write ([posts], [avatars], [friends], [followers] and
    [current_avatar] are touched by neither). *)
Record Profile : Type := {
  id : option Z;
  site : option string;
  upstream_id : option string;
  username : option string;
  is_stub : option bool;
  name : option string;
  description : option string;
  homepage : option string;
  join_date : option datetime;
  last_update : option datetime;
  follower_count : option Z;
  friend_count : option Z;
  post_count : option Z;
  lang : option string;
  location : option string;
  private : option bool;
  time_zone : option string;
  usernames : list ProfileUsername;
  notes : list ProfileNote;
  is_interesting : option bool;
  labels : list Label;
  score : option float
}.

(** The [username] argument of the constructor: a text or a
    [ProfileUsername] (line 152). *)
Inductive username_arg : Type :=
| Text (s : string)
| Instance (u : ProfileUsername).

(** A new instance before the constructor's body runs: every column reads
    [None], every collection is empty. *)
Definition new_instance : Profile :=
  {| id := None; site := None; upstream_id := None; username := None;
     is_stub := None; name := None; description := None; homepage := None;
     join_date := None; last_update := None; follower_count := None;
     friend_count := None; post_count := None; lang := None;
     location := None; private := None; time_zone := None;
     usernames := []; notes := []; is_interesting := None; labels := [];
     score := None |}.

(** Lines 152-160: the attribute and the appended entry.  [now] is what
    [datetime.now()] returns at line 156. *)
Definition username_entry (now : datetime) (a : username_arg)
  : result (option string * ProfileUsername) :=
  match a with
  | Instance u => Ok (pu_username u, u)
  | Text s =>
      try! u <- ProfileUsername_init (Some s) (ADatetime now) (ADatetime now);
      Ok (Some s, u)
  end.

(** Lines 145-160. *)
Definition Profile_init (now : datetime) (site_ upstream_id_ : string)
    (username_ : username_arg) (is_stub_ : bool) : result Profile :=
  let self := new_instance in
  try! entry <- username_entry now username_;
  Ok {| id := id self;
        site := Some site_;
        upstream_id := Some upstream_id_;
        username := fst entry;
        is_stub := Some is_stub_;
        name := name self; description := description self;
        homepage := homepage self; join_date := join_date self;
        last_update := last_update self;
        follower_count := follower_count self;
        friend_count := friend_count self; post_count := post_count self;
        lang := lang self; location := location self;
        private := private self; time_zone := time_zone self;
        usernames := usernames self ++ [snd entry];
        notes := notes self;
        is_interesting := is_interesting self;
        labels := labels self;
        score := score self |}.

(** Lines 192-195. *)
Definition site_name (self : Profile) : result string :=
  match site self with
  | Some s => getitem SOCIAL_SITES s
  | None => Raise KeyError
  end.

(** The dictionary of lines 169-190. *)
Record profile_dict : Type := {
  d_description : option string;
  d_follower_count : option Z;
  d_friend_count : option Z;
  d_is_interesting : option bool;
  d_id : option Z;
  d_is_stub : option bool;
  d_join_date : option string;
  d_labels : list label_dict;
  d_last_update : string;
  d_location : option string;
  d_name : option string;
  d_notes : list note_dict;
  d_post_count : option Z;
  d_private : option bool;
  d_score : option float;
  d_site : option string;
  d_site_name : string;
  d_upstream_id : option string;
  d_username : option string;
  d_time_zone : option string
}.

(** Lines 162-190. *)
Definition as_dict (self : Profile) : result profile_dict :=
  let labels_ := map label_as_dict (labels self) in
  try! notes_ <- comprehension ProfileNote_as_dict (notes self);
  let sorted_labels := sorted label_name false labels_ in
  let sorted_notes := sorted nd_created_at true notes_ in
  let join_date_ := option_map isoformat (join_date self) in
  try! last_update_ <-
    match last_update self with
    | Some d => Ok (isoformat (replace_microsecond d 0))
    | None => Raise AttributeError
    end;
  try! site_name_ <- site_name self;
  Ok {| d_description := description self;
        d_follower_count := follower_count self;
        d_friend_count := friend_count self;
        d_is_interesting := is_interesting self;
        d_id := id self;
        d_is_stub := is_stub self;
        d_join_date := join_date_;
        d_labels := sorted_labels;
        d_last_update := last_update_;
        d_location := location self;
        d_name := name self;
        d_notes := sorted_notes;
        d_post_count := post_count self;
        d_private := private self;
        d_score := score self;
        d_site := site self;
        d_site_name := site_name_;
        d_upstream_id := upstream_id self;
        d_username := username self;
        d_time_zone := time_zone self |}.

Unset Implicit Arguments.

End Classes.

End Model.

(** ** Sample values *)

Module Samples.

Import Py Notification.

(** A message published on [channel] with the bytes [payload]. *)
Definition published (channel : string) (payload : bytes) : message :=
  {| type := "message"; pattern := None;
     channel := encode_utf8 channel; data := PBytes payload |}.

(** The bus acknowledging a subscription to [channel], the [n]-th of the
    connection. *)
Definition acknowledgement (channel : string) (n : Z) : message :=
  {| type := "subscribe"; pattern := None;
     channel := encode_utf8 channel; data := PInt n |}.

Definition idle : world :=
  {| redis_config := [("host", "localhost"); ("port", "6379")];
     reachable := true;
     calls := [] |}.

Definition sse_request : request := {| accept := Some "text/event-stream" |}.

(** What [NotificationView.index] returns for [sse_request] in [idle]. *)
Definition session : response :=
  {| body := {| source := {| ignore_subscribe_messages := true;
                             channels := ["avatar"; "profile"] |};
                at_ := NotStarted |};
     content_type := "text/event-stream" |}.

Definition subscribed : world :=
  {| redis_config := redis_config idle;
     reachable := true;
     calls := [GetRedis (redis_config idle); NewPubSub true;
               Subscribe ["avatar"; "profile"]] |}.

End Samples.

Module ModelSamples.

Import Py Builtins Model.

(** A label with its dictionary: an identifier and a name. *)
Definition label : Type := (Z * string)%type.
Definition label_as_dict (l : label) : label := l.
Definition label_name (d : label) : string := snd d.

(** A parser that knows no format. *)
Definition parse_nothing (s : string) : result datetime := Raise ValueError.

Definition moment (h m s us : Z) : datetime :=
  {| year := 2016; month := 2; day := 3;
     hour := h; minute := m; second := s; microsecond := us;
     utcoffset := None |}.

Definition note (n : Z) (created_at : datetime) : ProfileNote :=
  {| note_id := Some n; note_category := Some "note"; note_body := None;
     note_created_at := Some created_at; note_profile_id := Some 1 |}.

(** A stored profile with three labels and three notes, neither in order. *)
Definition stored : Profile label Z :=
  {| id := Some 1; site := Some "twitter"; upstream_id := Some "12";
     username := Some "john"; is_stub := Some false; name := None;
     description := None; homepage := None; join_date := None;
     last_update := Some (moment 9 30 0 125);
     follower_count := None; friend_count := None; post_count := None;
     lang := None; location := None; private := None; time_zone := None;
     usernames := [];
     notes := [note 1 (moment 8 0 0 0); note 2 (moment 10 0 0 5);
               note 3 (moment 9 0 0 0)];
     is_interesting := None;
     labels := [(1, "west"); (2, "east"); (3, "north")];
     score := None |}.

End ModelSamples.

(** ** What a connection delivers *)

Module Delivery.

Import Py Notification.

(** Lines 55-56: the channel and the data a message decodes to. *)
Definition event_of (m : message) : result (string * string) :=
  try! channel <- decode_utf8 (channel m);
  try! data <- decode_payload (data m);
  Ok (channel, data).

(** The events of the messages handed over before the stream ends: anything
    but a message that decodes ends it. *)
Fixpoint delivered (signals : list signal) : list (string * string) :=
  match signals with
  | Source (Yields m) :: rest =>
      match event_of m with
      | Ok ev => ev :: delivered rest
      | Raise _ => []
      end
  | _ => []
  end.

(** The generator is suspended at one of its two yields. *)
Definition running (c : connection) : Prop :=
  at_ (gen c) = AtPriming \/ exists k, at_ (gen c) = AtFrame k.

(** [a not in s]. *)
Fixpoint lacks (a : ascii) (s : string) : bool :=
  match s with
  | EmptyString => true
  | String b s' => (negb (Ascii.eqb a b) && lacks a s')%bool
  end.

(** A text without a line break. *)
Definition one_line (s : string) : bool := lacks (ascii_of_nat 10) s.

End Delivery.

(** ** The order of dates *)

Module Calendar.

Import Py Builtins Model.

Definition within (lo hi n : Z) : bool := (Z.leb lo n && Z.leb n hi)%bool.

(** The fields a [datetime] can hold: years 1 to 9999, months 1 to 12, days
    1 to 31 at most, the time of day down to the microsecond, and an offset
    of less than a day. *)
Definition in_range (d : datetime) : bool :=
  (within 1 9999 (year d) && within 1 12 (month d) && within 1 31 (day d)
   && within 0 23 (hour d) && within 0 59 (minute d) && within 0 59 (second d)
   && within 0 999999 (microsecond d)
   && match utcoffset d with
      | None => true
      | Some m => within (-1439) 1439 m
      end)%bool.

(** A [datetime] without [tzinfo]. *)
Definition naive (d : datetime) : bool :=
  match utcoffset d with
  | None => true
  | Some _ => false
  end.

Definition then_ (c1 c2 : comparison) : comparison :=
  match c1 with
  | Eq => c2
  | _ => c1
  end.

(** How Python orders two naive [datetime]s: field by field, from the year
    down to the microsecond.  (Two aware ones are ordered by their instants,
    and an aware one is not comparable with a naive one.) *)
Definition compare_datetime (a b : datetime) : comparison :=
  then_ (year a ?= year b)
    (then_ (month a ?= month b)
       (then_ (day a ?= day b)
          (then_ (hour a ?= hour b)
             (then_ (minute a ?= minute b)
                (then_ (second a ?= second b)
                   (microsecond a ?= microsecond b)))))).

(** A note that was not created before another, for notes whose dates are
    naive. *)
Definition not_older (a b : ProfileNote) : Prop :=
  match note_created_at a, note_created_at b with
  | Some ta, Some tb => compare_datetime tb ta <> Gt
  | _, _ => True
  end.

(** The text line 168 sorts a note by. *)
Definition created_text (n : ProfileNote) : string :=
  match note_created_at n with
  | Some t => isoformat t
  | None => EmptyString
  end.

End Calendar.

Module MoreSamples.

Import Py Builtins Model ModelSamples.

Definition with_relationships (p : Profile label Z)
    (labels_ : list label) (notes_ : list ProfileNote) : Profile label Z :=
  {| id := id p; site := site p; upstream_id := upstream_id p;
     username := username p; is_stub := is_stub p; name := name p;
     description := description p; homepage := homepage p;
     join_date := join_date p; last_update := last_update p;
     follower_count := follower_count p; friend_count := friend_count p;
     post_count := post_count p; lang := lang p; location := location p;
     private := private p; time_zone := time_zone p;
     usernames := usernames p;
     notes := notes_;
     is_interesting := is_interesting p;
     labels := labels_;
     score := score p |}.

(** [stored] with two labels of one name and two notes of one moment. *)
Definition tied : Profile label Z :=
  with_relationships stored
    [(1, "west"); (2, "east"); (3, "west")]
    [note 1 (moment 8 0 0 0); note 2 (moment 10 0 0 5); note 3 (moment 8 0 0 0)].

(** Ten o'clock at five hours east of UTC, and eight o'clock at UTC, which
    is three hours later. *)
Definition ten_east : datetime :=
  {| year := 2016; month := 2; day := 3;
     hour := 10; minute := 0; second := 0; microsecond := 0;
     utcoffset := Some 300 |}.

Definition eight_utc : datetime :=
  {| year := 2016; month := 2; day := 3;
     hour := 8; minute := 0; second := 0; microsecond := 0;
     utcoffset := Some 0 |}.

(** What the constructor returns for a text as username. *)
Definition constructed : Profile label Z :=
  {| id := None; site := Some "twitter"; upstream_id := Some "12";
     username := Some "john"; is_stub := Some false; name := None;
     description := None; homepage := None; join_date := None;
     last_update := None;
     follower_count := None; friend_count := None; post_count := None;
     lang := None; location := None; private := None; time_zone := None;
     usernames := [{| pu_id := None; pu_username := Some "john";
                      pu_start_date := Some (moment 9 30 0 125);
                      pu_end_date := Some (moment 9 30 0 125);
                      pu_profile_id := None |}];
     notes := [];
     is_interesting := None;
     labels := [];
     score := None |}.

(** [stored] with its labels held the other way round. *)
Definition stored_reversed : Profile label Z :=
  with_relationships stored (List.rev (labels stored)) (notes stored).

End MoreSamples.

(** * Properties *)

(** ** Text *)

Section TextFacts.

Import Py.

(** [str_of_int] writes the decimal numeral of its argument: reading the
    digits back gives the number. *)
Lemma str_of_int_decimal (n : Z) :
  option_map Z.of_int (NilZero.int_of_string (str_of_int n)) = Some n.
Proof.
  unfold str_of_int.
  rewrite NilZero.isi.
  - simpl. now rewrite DecimalZ.of_to.
  - destruct n as [|p|p]; simpl; try discriminate.
    intros [= H]. now apply (DecimalPos.Unsigned.to_uint_nonnil p).
  - destruct n as [|p|p]; simpl; try discriminate.
    intros [= H]. now apply (DecimalPos.Unsigned.to_uint_nonnil p).
Qed.

Lemma str_of_int_inj (n n' : Z) : str_of_int n = str_of_int n' -> n = n'.
Proof.
  intros H.
  pose proof (str_of_int_decimal n) as Hn.
  rewrite H, str_of_int_decimal in Hn. congruence.
Qed.

(** A text made of ASCII characters only is its own encoding, and decodes. *)
Example decode_ascii : decode_utf8 (encode_utf8 "profile") = Ok "profile".
Proof. reflexivity. Qed.

Example decode_two_byte : decode_utf8 [xc3; xa9] = Ok (string_of_list_byte [xc3; xa9]).
Proof. reflexivity. Qed.

Example decode_rejects_stray_byte : decode_utf8 [xff] = Raise UnicodeDecodeError.
Proof. reflexivity. Qed.

Example decode_rejects_overlong : decode_utf8 [xc0; x80] = Raise UnicodeDecodeError.
Proof. reflexivity. Qed.

Example decode_rejects_surrogate : decode_utf8 [xed; xa0; x80] = Raise UnicodeDecodeError.
Proof. reflexivity. Qed.

Example format_escapes : format "a{{}}b{}" [VInt 3] = Ok "a{}b3".
Proof. reflexivity. Qed.

End TextFacts.

(** ** The notification view *)

Section NotificationFacts.

Import Py Notification.

(** C2.  Encoding an event is a function of the event alone, and its value for
    sequence id [s], channel [c] and payload [p] is exactly the text
    ['id: ' + decimal(s) + '\nevent: ' + c + '\ndata: ' + p + '\n\n']: the
    channel and the payload stand in it as they are, and the digits after
    [id: ] read back as [s]. *)
Theorem encode_frame (s : Z) (c p : string) :
  encode s c p
  = Ok ("id: " ++ str_of_int s ++ (nl ++ "event: ") ++ c
        ++ (nl ++ "data: ") ++ p ++ (nl ++ nl))%string
  /\ option_map Z.of_int (NilZero.int_of_string (str_of_int s)) = Some s.
Proof.
  split.
  - unfold encode, frame_template. cbn. reflexivity.
  - apply str_of_int_decimal.
Qed.

Lemma encode_wire_frame (s : Z) (c p : string) :
  encode s c p = Ok (wire_frame s c p).
Proof. unfold encode, frame_template, wire_frame. cbn. reflexivity. Qed.

(** The scenario of section 8. *)
Example encode_profile_42 :
  encode 1 "profile" "42"
  = Ok ("id: 1" ++ nl ++ "event: profile" ++ nl ++ "data: 42" ++ nl ++ nl)%string.
Proof. reflexivity. Qed.

Example encode_avatar_7 :
  encode 2 "avatar" "7"
  = Ok ("id: 2" ++ nl ++ "event: avatar" ++ nl ++ "data: 7" ++ nl ++ nl)%string.
Proof. reflexivity. Qed.

(** The payload is not interpreted: one that holds a frame terminator is
    embedded all the same. *)
Example encode_keeps_terminator :
  encode 3 "profile" ("a" ++ nl ++ nl ++ "b")
  = Ok (wire_frame 3 "profile" ("a" ++ nl ++ nl ++ "b")).
Proof. reflexivity. Qed.

Lemma loop_body_decoded (event_id : Z) (m : message) (ev : string * string) :
  decodes_to m ev ->
  loop_body event_id m = Ok (wire_frame event_id (fst ev) (snd ev)).
Proof.
  intros [Hc Hd]. unfold loop_body.
  rewrite Hc, Hd. simpl. apply encode_wire_frame.
Qed.

Lemma iterate_decoded (event_id : Z) (m : message) (ev : string * string) :
  decodes_to m ev ->
  iterate event_id (Yields m)
  = (Some (wire_frame event_id (fst ev) (snd ev)), AtFrame event_id).
Proof.
  intros H. unfold iterate. now rewrite (loop_body_decoded _ _ _ H).
Qed.

Lemma drive_app (l1 l2 : list signal) (c : connection) :
  drive (l1 ++ l2) c = drive l2 (drive l1 c).
Proof. unfold drive. apply fold_left_app. Qed.

Lemma drive_cons (s : signal) (l : list signal) (c : connection) :
  drive (s :: l) c = drive l (react s c).
Proof. reflexivity. Qed.

(** A generator that runs reacts to a decodable message by writing its frame
    under the next counter value. *)
Lemma react_decoded (c : connection) (m : message) (ev : string * string) :
  at_ (gen c) = AtPriming \/ (exists k, at_ (gen c) = AtFrame k) ->
  decodes_to m ev ->
  let c' := react (Source (Yields m)) c in
  written c' = (written c ++ [wire_frame (next_event_id (at_ (gen c))) (fst ev) (snd ev)])%list
  /\ at_ (gen c') = AtFrame (next_event_id (at_ (gen c)))
  /\ env c' = env c
  /\ source (gen c') = source (gen c).
Proof.
  intros Hph Hdec. unfold react.
  destruct Hph as [Hph | [k Hph]]; rewrite Hph; cbn [resume next_event_id];
    rewrite (iterate_decoded _ _ _ Hdec); simpl; auto.
Qed.

(** Decodable messages in a row: the frames come out in the order of the
    messages, numbered upwards from the counter's next value. *)
Lemma drive_decoded (msgs : list message) :
  forall (evs : list (string * string)) (c : connection),
    at_ (gen c) = AtPriming \/ (exists k, at_ (gen c) = AtFrame k) ->
    Forall2 decodes_to msgs evs ->
    let c' := drive (map (fun m => Source (Yields m)) msgs) c in
    written c' = (written c ++ numbered (next_event_id (at_ (gen c))) evs)%list
    /\ (at_ (gen c') = AtPriming \/ exists k, at_ (gen c') = AtFrame k)
    /\ next_event_id (at_ (gen c')) = next_event_id (at_ (gen c)) + Z.of_nat (List.length msgs)
    /\ env c' = env c.
Proof.
  induction msgs as [|m msgs IH]; intros evs c Hph Hall; inversion Hall; subst.
  - simpl. rewrite app_nil_r. repeat split; auto. lia.
  - rename y into ev, l' into evs'.
    destruct (react_decoded c m ev Hph H1) as (Hw & Hp & He & _).
    simpl map. rewrite drive_cons.
    assert (Hph' : at_ (gen (react (Source (Yields m)) c)) = AtPriming
                   \/ exists k, at_ (gen (react (Source (Yields m)) c)) = AtFrame k)
      by (right; eexists; exact Hp).
    destruct (IH evs' _ Hph' H3) as (Hw' & Hp' & Hn' & He').
    cbv zeta. rewrite Hp in Hw', Hn'. cbn [next_event_id] in Hw', Hn'.
    destruct ev as [ch pl]. cbn [numbered fst snd] in *.
    split; [|split; [exact Hp'|split]].
    + rewrite Hw', Hw, <- app_assoc. reflexivity.
    + rewrite Hn'. cbn [List.length]. lia.
    + now rewrite He'.
Qed.

Lemma index_ok_not_started cls req w0 r w :
  index cls req w0 = (Ok r, w) ->
  at_ (body r) = NotStarted
  /\ source (body r) = {| ignore_subscribe_messages := true;
                          channels := CHANNELS cls |}
  /\ content_type r = "text/event-stream".
Proof.
  unfold index, subscribe.
  destruct (header_is (accept req) "text/event-stream"); [|discriminate].
  simpl. destruct (reachable w0); [|discriminate].
  intros [= <- <-]. simpl. auto.
Qed.

Lemma open_not_started (r : response) (w : world) :
  at_ (body r) = NotStarted ->
  written (open r w) = [EmptyString]
  /\ at_ (gen (open r w)) = AtPriming
  /\ env (open r w) = w
  /\ source (gen (open r w)) = source (body r).
Proof.
  intros H. unfold open. rewrite H. simpl. auto.
Qed.

Import Samples.

Lemma index_session : index NotificationView sse_request idle = (Ok session, subscribed).
Proof. reflexivity. Qed.

Lemma numbered_length (evs : list (string * string)) :
  forall first, List.length (numbered first evs) = List.length evs.
Proof.
  induction evs as [|[c p] evs IH]; intros first; simpl; auto.
Qed.

Lemma numbered_nth (evs : list (string * string)) :
  forall first i ev,
    nth_error evs i = Some ev ->
    nth_error (numbered first evs) i
    = Some (wire_frame (first + Z.of_nat i) (fst ev) (snd ev)).
Proof.
  induction evs as [|[c p] evs IH]; intros first i ev H.
  - destruct i; discriminate.
  - destruct i as [|i].
    + injection H as <-. simpl. now rewrite Z.add_0_r.
    + simpl in H. cbn [numbered nth_error].
      rewrite (IH _ _ _ H). do 2 f_equal. lia.
Qed.

Lemma decode_utf8_cases (b : bytes) :
  decode_utf8 b = Ok (string_of_list_byte b)
  \/ decode_utf8 b = Raise UnicodeDecodeError.
Proof.
  unfold decode_utf8. destruct (well_formed (map Byte.to_N b)); auto.
Qed.

Lemma loop_body_undecodable (event_id : Z) (m : message) :
  undecodable m -> loop_body event_id m = Raise UnicodeDecodeError.
Proof.
  unfold loop_body. intros [Hc | (b & Hd & Hb)].
  - now rewrite Hc.
  - destruct (decode_utf8_cases (channel m)) as [-> | ->]; [|reflexivity].
    simpl. rewrite Hd. simpl. now rewrite Hb.
Qed.

(** Nothing happens on a connection whose generator is finished. *)
Lemma drive_finished (signals : list signal) (c : connection) (o : outcome) :
  at_ (gen c) = Done o -> drive signals c = c.
Proof.
  intros H. induction signals as [|s signals IH]; [reflexivity|].
  rewrite drive_cons. unfold react at 1. now rewrite H.
Qed.

Lemma react_undecodable (c : connection) (m : message) :
  at_ (gen c) = AtPriming \/ (exists k, at_ (gen c) = AtFrame k) ->
  undecodable m ->
  written (react (Source (Yields m)) c) = written c
  /\ at_ (gen (react (Source (Yields m)) c)) = Done (Raised UnicodeDecodeError).
Proof.
  intros Hph Hm. unfold react.
  destruct Hph as [Hph | [k Hph]]; rewrite Hph; cbn [resume iterate];
    rewrite (loop_body_undecodable _ _ Hm); simpl; auto.
Qed.

(** C1, as stated, fails: a published message whose payload is not UTF-8 is
    received by the session but gets no frame (line 56 raises), and the
    generator is finished, so a well-formed message behind it gets none
    either.  Nothing but the priming string is written. *)
Lemma stream_stops_at_undecodable :
  let bad := published "profile" [xff] in
  let good := published "avatar" (encode_utf8 "7") in
  let c1 := serve session subscribed [Source (Yields bad)] in
  let c2 := serve session subscribed [Source (Yields bad); Source (Yields good)] in
  index NotificationView sse_request idle = (Ok session, subscribed)
  /\ written c1 = [EmptyString]
  /\ at_ (gen c1) = Done (Raised UnicodeDecodeError)
  /\ written c2 = [EmptyString]
  /\ at_ (gen c2) = Done (Raised UnicodeDecodeError).
Proof. repeat split. Qed.

(** C1 (amended).  For every session [index] opens and every sequence of N
    messages the event source hands to it whose channel and data are
    well-formed UTF-8, what is written is the priming string followed by
    exactly N frames, the i-th being the frame of the i-th message under
    sequence id i: ids 1..N in the order of arrival, nothing dropped,
    merged or reordered, and the generator still running.  A message that
    is not well-formed UTF-8 gets no frame and ends the stream with
    [UnicodeDecodeError], whatever follows it. *)
Theorem stream_numbers_frames
    (cls : view) (req : request) (w0 w : world) (r : response)
    (msgs : list message) (evs : list (string * string)) :
  index cls req w0 = (Ok r, w) ->
  Forall2 decodes_to msgs evs ->
  let c := serve r w (map (fun m => Source (Yields m)) msgs) in
  written c = EmptyString :: numbered 1 evs
  /\ List.length (numbered 1 evs) = List.length msgs
  /\ (forall i ev,
        nth_error evs i = Some ev ->
        nth_error (written c) (S i)
        = Some (wire_frame (Z.of_nat i + 1) (fst ev) (snd ev)))
  /\ finished (at_ (gen c)) = false
  /\ (forall (m : message) (rest : list signal),
        undecodable m ->
        let c' := serve r w (map (fun m => Source (Yields m)) msgs
                             ++ Source (Yields m) :: rest) in
        written c' = EmptyString :: numbered 1 evs
        /\ at_ (gen c') = Done (Raised UnicodeDecodeError)).
Proof.
  intros Hidx Hall c.
  destruct (index_ok_not_started _ _ _ _ _ Hidx) as (Hns & _).
  destruct (open_not_started r w Hns) as (Hw & Hp & _).
  assert (Hrun : at_ (gen (open r w)) = AtPriming
                 \/ exists k, at_ (gen (open r w)) = AtFrame k) by now left.
  destruct (drive_decoded msgs evs (open r w) Hrun Hall) as (Hwr & Hph & _).
  fold (serve r w (map (fun m => Source (Yields m)) msgs)) in Hwr, Hph.
  fold c in Hwr, Hph.
  rewrite Hw, Hp in Hwr. cbn [next_event_id app] in Hwr.
  assert (Hlen : List.length evs = List.length msgs).
  { clear -Hall. induction Hall; simpl; congruence. }
  split; [exact Hwr|split; [|split; [|split]]].
  - now rewrite numbered_length.
  - intros i ev Hi. rewrite Hwr. cbn [nth_error].
    rewrite (numbered_nth _ _ _ _ Hi). do 2 f_equal. lia.
  - destruct Hph as [-> | [k ->]]; reflexivity.
  - intros m rest Hm c'. subst c'. unfold serve.
    rewrite drive_app, drive_cons.
    fold (serve r w (map (fun m => Source (Yields m)) msgs)). fold c.
    destruct (react_undecodable c m Hph Hm) as (Hw' & Hp').
    rewrite (drive_finished rest _ _ Hp'). rewrite Hw', Hp'. now split.
Qed.

(** The scenario of section 8: [("profile", "42")] then [("avatar", "7")]. *)
Lemma stream_numbers_frames_witness :
  written (serve session subscribed
             (map (fun m => Source (Yields m))
                  [published "profile" (encode_utf8 "42");
                   published "avatar" (encode_utf8 "7")]))
  = [EmptyString; wire_frame 1 "profile" "42"; wire_frame 2 "avatar" "7"].
Proof.
  refine (proj1 (stream_numbers_frames NotificationView sse_request idle subscribed
                   session _ [("profile", "42"); ("avatar", "7")] _ _)).
  - reflexivity.
  - repeat constructor.
Defined.

Lemma header_is_true (h : option string) (v : string) :
  header_is h v = true <-> h = Some v.
Proof.
  destruct h as [s|]; simpl.
  - rewrite String.eqb_eq. split; congruence.
  - split; discriminate.
Qed.

Lemma header_is_false (h : option string) (v : string) :
  header_is h v = false <-> h <> Some v.
Proof.
  rewrite <- header_is_true. destruct (header_is h v); split; congruence.
Qed.

(** C3.  A request whose [Accept] header is not the streaming content type
    makes [index] raise [NotAcceptable], and the world is left as it was: no
    call was made on the broker, so no subscription was opened and no
    pub/sub object created. *)
Theorem index_rejects_without_broker (cls : view) (req : request) (w : world) :
  accept req <> Some "text/event-stream" ->
  index cls req w = (Raise (NotAcceptable not_acceptable_message), w)
  /\ subscribe_count (snd (index cls req w)) = subscribe_count w
  /\ handle_count (snd (index cls req w)) = handle_count w
  /\ calls (snd (index cls req w)) = calls w.
Proof.
  intros H. apply header_is_false in H.
  unfold index. rewrite H. simpl. auto.
Qed.

Lemma index_rejects_without_broker_witness :
  index NotificationView {| accept := Some "text/html" |} idle
  = (Raise (NotAcceptable not_acceptable_message), idle)
  /\ subscribe_count (snd (index NotificationView {| accept := Some "text/html" |} idle)) = 0%nat.
Proof.
  assert (H : accept {| accept := Some "text/html" |} <> Some "text/event-stream")
    by (simpl; discriminate).
  destruct (index_rejects_without_broker NotificationView _ idle H) as (H1 & H2 & _).
  split; [exact H1 | exact H2].
Defined.

(** C8.  The negotiation is an exact comparison of strings: a request gets
    past it exactly when its [Accept] header is the text
    [text/event-stream]; with no header, with [text/event-stream, */*] and
    with [*/*] it is rejected with [NotAcceptable]. *)
Theorem negotiation_is_exact (cls : view) (w : world) :
  (forall req, accepted cls req w = true <-> accept req = Some "text/event-stream")
  /\ (forall req, accepted cls req w = false
                  <-> index cls req w = (Raise (NotAcceptable not_acceptable_message), w))
  /\ index cls {| accept := None |} w
     = (Raise (NotAcceptable not_acceptable_message), w)
  /\ index cls {| accept := Some "text/event-stream, */*" |} w
     = (Raise (NotAcceptable not_acceptable_message), w)
  /\ index cls {| accept := Some "*/*" |} w
     = (Raise (NotAcceptable not_acceptable_message), w).
Proof.
  assert (Hacc : forall req,
             accepted cls req w = header_is (accept req) "text/event-stream").
  { intros req. unfold accepted, index, subscribe.
    destruct (header_is (accept req) "text/event-stream"); simpl; auto.
    destruct (reachable w); reflexivity. }
  split; [|split; [|repeat split]].
  - intros req. rewrite Hacc. apply header_is_true.
  - intros req. rewrite Hacc. split.
    + intros H. unfold index. now rewrite H.
    + unfold index, subscribe.
      destruct (header_is (accept req) "text/event-stream"); auto.
      simpl. destruct (reachable w); discriminate.
Qed.

(** What one turn of the loop yields is a frame: it begins with [id: ]. *)
Lemma loop_body_frame (event_id : Z) (m : message) (f : string) :
  loop_body event_id m = Ok f -> startswith f "id: " = true.
Proof.
  unfold loop_body.
  destruct (decode_utf8 (channel m)) as [c|]; [|discriminate].
  destruct (decode_payload (data m)) as [p|]; [|discriminate].
  simpl. rewrite encode_wire_frame. intros [= <-]. reflexivity.
Qed.

Lemma iterate_frame (event_id : Z) (p : pull) (f : string) (ph : phase) :
  iterate event_id p = (Some f, ph) -> startswith f "id: " = true.
Proof.
  destruct p as [m| |]; simpl; try discriminate.
  destruct (loop_body event_id m) eqn:E; [|discriminate].
  intros [= <- _]. eapply loop_body_frame; eauto.
Qed.

Lemma iterate_started (event_id : Z) (p : pull) :
  snd (iterate event_id p) <> NotStarted.
Proof.
  destruct p as [m| |]; simpl; try discriminate.
  destruct (loop_body event_id m); discriminate.
Qed.

(** Once the body was entered, a signal adds nothing or one frame. *)
Lemma react_started (s : signal) (c : connection) :
  at_ (gen c) <> NotStarted ->
  at_ (gen (react s c)) <> NotStarted
  /\ (written (react s c) = written c
      \/ exists f, startswith f "id: " = true
                   /\ written (react s c) = (written c ++ [f])%list).
Proof.
  intros Hns. unfold react.
  destruct (at_ (gen c)) as [| |k|o] eqn:Hph; try congruence.
  - destruct s as [p| |]; simpl; try (split; [discriminate|now left]).
    pose proof (iterate_started 1 p) as Hs.
    destruct (iterate 1 p) as [[f|] ph] eqn:E; simpl in *; split; auto.
    right. exists f. split; auto. eapply iterate_frame; eauto.
  - destruct s as [p| |]; simpl; try (split; [discriminate|now left]).
    pose proof (iterate_started (k + 1) p) as Hs.
    destruct (iterate (k + 1) p) as [[f|] ph] eqn:E; simpl in *; split; auto.
    right. exists f. split; auto. eapply iterate_frame; eauto.
  - rewrite Hph. split; [discriminate|now left].
Qed.

Lemma drive_started (signals : list signal) :
  forall c,
    at_ (gen c) <> NotStarted ->
    exists frames,
      written (drive signals c) = (written c ++ frames)%list
      /\ Forall (fun f => startswith f "id: " = true) frames.
Proof.
  induction signals as [|s signals IH]; intros c Hns.
  - exists []. simpl. now rewrite app_nil_r.
  - destruct (react_started s c Hns) as (Hns' & Hw).
    destruct (IH _ Hns') as (frames & Hd & Hall).
    rewrite drive_cons, Hd.
    destruct Hw as [-> | (f & Hf & ->)].
    + now exists frames.
    + exists (f :: frames). rewrite <- app_assoc. now split; [|constructor].
Qed.

(** C5.  Whatever happens on a connection [index] opened, the first string
    written is the empty priming string, and it is the only empty one:
    every string after it is a frame, beginning with [id: ]. *)
Theorem stream_primes_first
    (cls : view) (req : request) (w0 w : world) (r : response)
    (signals : list signal) :
  index cls req w0 = (Ok r, w) ->
  written (open r w) = [EmptyString]
  /\ exists frames,
       written (serve r w signals) = EmptyString :: frames
       /\ Forall (fun f => startswith f "id: " = true) frames.
Proof.
  intros Hidx.
  destruct (index_ok_not_started _ _ _ _ _ Hidx) as (Hns & _).
  destruct (open_not_started r w Hns) as (Hw & Hp & _).
  split; [exact Hw|].
  assert (Hst : at_ (gen (open r w)) <> NotStarted) by (rewrite Hp; discriminate).
  destruct (drive_started signals _ Hst) as (frames & Hd & Hall).
  exists frames. unfold serve. rewrite Hd, Hw. now split.
Qed.

Lemma stream_primes_first_witness :
  exists frames,
    written (serve session subscribed
               [Source (Yields (published "profile" (encode_utf8 "42"))); ClientGone])
    = EmptyString :: frames
    /\ Forall (fun f => startswith f "id: " = true) frames.
Proof.
  exact (proj2 (stream_primes_first NotificationView sse_request idle subscribed
                  session _ index_session)).
Defined.

Lemma react_env (s : signal) (c : connection) : env (react s c) = env c.
Proof.
  unfold react. destruct (at_ (gen c)); destruct s as [p| |]; simpl; auto;
    match goal with |- context [let '(_, _) := ?e in _] => destruct e end;
    reflexivity.
Qed.

Lemma drive_env (signals : list signal) :
  forall c, env (drive signals c) = env c.
Proof.
  induction signals as [|s signals IH]; intros c; [reflexivity|].
  rewrite drive_cons, IH. apply react_env.
Qed.

Lemma drive_not_not_started (signals : list signal) :
  forall c, at_ (gen c) <> NotStarted -> at_ (gen (drive signals c)) <> NotStarted.
Proof.
  induction signals as [|s signals IH]; intros c H; [exact H|].
  rewrite drive_cons. apply IH. now apply react_started.
Qed.

Lemma react_teardown (s : signal) (c : connection) :
  at_ (gen c) <> NotStarted ->
  teardown s = true ->
  finished (at_ (gen (react s c))) = true.
Proof.
  intros Hns Ht. unfold react.
  destruct (at_ (gen c)) eqn:Hph; try congruence;
    destruct s as [[m| |]| |]; try discriminate; simpl; try reflexivity;
    now rewrite Hph.
Qed.

Lemma index_adds_no_close (cls : view) (req : request) (w : world) :
  close_count (snd (index cls req w)) = close_count w.
Proof.
  unfold index, subscribe, close_count.
  destruct (header_is (accept req) "text/event-stream"); [|reflexivity].
  simpl. destruct (reachable w); simpl;
    rewrite !filter_app; simpl; now rewrite !app_nil_r.
Qed.

(** C4, as stated, fails: on each teardown path of a connection that has
    streamed one frame -- the bus dropping the connection, the client going
    away, the process shutting down -- the generator finishes and the number
    of [close()] calls made is zero, not one. *)
Lemma teardown_calls_no_close :
  let m := published "profile" (encode_utf8 "42") in
  let lost := serve session subscribed [Source (Yields m); Source Fails] in
  let gone := serve session subscribed [Source (Yields m); ClientGone] in
  let down := serve session subscribed [Source (Yields m); Shutdown] in
  at_ (gen lost) = Done (Raised BrokerConnectionLost)
  /\ close_count (env lost) = 0%nat
  /\ at_ (gen gone) = Done Closed
  /\ close_count (env gone) = 0%nat
  /\ at_ (gen down) = Done Closed
  /\ close_count (env down) = 0%nat.
Proof. repeat split. Qed.

(** C4 (amended).  On every teardown path of a streaming connection -- the
    source ending or failing, the client going away, the process shutting
    down -- the generator finishes without a single call on the broker: the
    calls made are those [index] made, none of which is [close()], so the
    number of [close()] calls is what it was before the request. *)
Theorem teardown_leaves_broker_untouched
    (cls : view) (req : request) (w0 : world)
    (signals : list signal) (last : signal) :
  match index cls req w0 with
  | (Ok r, w) =>
      env (serve r w (signals ++ [last])) = w
      /\ close_count (env (serve r w (signals ++ [last]))) = close_count w0
      /\ (if teardown last
          then finished (at_ (gen (serve r w (signals ++ [last]))))
          else true) = true
  | (Raise _, w) => close_count w = close_count w0
  end.
Proof.
  pose proof (index_adds_no_close cls req w0) as Hc.
  destruct (index cls req w0) as [[r|e] w] eqn:Hidx; simpl in Hc; [|exact Hc].
  destruct (index_ok_not_started _ _ _ _ _ Hidx) as (Hns & _).
  destruct (open_not_started r w Hns) as (_ & Hp & He & _).
  assert (Henv : env (serve r w (signals ++ [last])) = w)
    by (unfold serve; now rewrite drive_env).
  split; [exact Henv|split; [now rewrite Henv|]].
  destruct (teardown last) eqn:Ht; [|reflexivity].
  unfold serve. rewrite drive_app. simpl drive at 1.
  apply react_teardown; [|exact Ht].
  apply drive_not_not_started. rewrite Hp. discriminate.
Qed.




Lemma serve_decoded (r : response) (w : world)
    (msgs : list message) (evs : list (string * string)) :
  at_ (body r) = NotStarted ->
  Forall2 decodes_to msgs evs ->
  written (serve r w (map (fun m => Source (Yields m)) msgs))
  = EmptyString :: numbered 1 evs.
Proof.
  intros Hns Hall.
  destruct (open_not_started r w Hns) as (Hw & Hp & _).
  assert (Hrun : at_ (gen (open r w)) = AtPriming
                 \/ exists k, at_ (gen (open r w)) = AtFrame k) by now left.
  destruct (drive_decoded msgs evs (open r w) Hrun Hall) as (Hwr & _).
  unfold serve. rewrite Hwr, Hw, Hp. reflexivity.
Qed.

Lemma listen_ignoring (ps : pubsub) (wire : list pull) :
  ignore_subscribe_messages ps = true ->
  listen ps wire = filter passes wire.
Proof. intros H. unfold listen. now rewrite H. Qed.

Lemma filter_passes_yields (msgs : list message) :
  filter passes (map Yields msgs) = map Yields (filter is_data msgs).
Proof.
  induction msgs as [|m msgs IH]; [reflexivity|].
  simpl. destruct (is_data m); simpl; now rewrite IH.
Qed.

Lemma filter_idempotent {A : Type} (f : A -> bool) (l : list A) :
  filter f (filter f l) = filter f l.
Proof.
  induction l as [|x l IH]; [reflexivity|].
  simpl. destruct (f x) eqn:E; simpl; [rewrite E|]; now rewrite IH.
Qed.

(** With acknowledgements let through, one reaching the loop would end the
    stream: its [data] is an [int], which line 56 cannot decode. *)
Example acknowledgement_would_raise :
  loop_body 1 (acknowledgement "avatar" 1) = Raise AttributeError.
Proof. reflexivity. Qed.

(** C7.  On a connection [index] opened, every message the event source
    yields into the loop is a data event: the pub/sub object was created
    with acknowledgements ignored, so what the bus sends besides published
    messages changes nothing of the connection, gets no frame and uses up
    no sequence id -- the frames are those of the published messages alone,
    numbered 1, 2, ... *)
Theorem stream_sees_data_events_only
    (cls : view) (req : request) (w0 w : world) (r : response)
    (wire : list pull) :
  index cls req w0 = (Ok r, w) ->
  ignore_subscribe_messages (source (body r)) = true
  /\ Forall data_event (listen (source (body r)) wire)
  /\ connect r w wire = connect r w (filter passes wire)
  /\ (forall msgs evs,
        wire = map Yields msgs ->
        Forall2 decodes_to (filter is_data msgs) evs ->
        written (connect r w wire) = EmptyString :: numbered 1 evs).
Proof.
  intros Hidx.
  destruct (index_ok_not_started _ _ _ _ _ Hidx) as (Hns & Hsrc & _).
  assert (Hig : ignore_subscribe_messages (source (body r)) = true)
    by now rewrite Hsrc.
  split; [exact Hig|split; [|split]].
  - rewrite (listen_ignoring _ _ Hig).
    apply Forall_forall. intros p Hin.
    apply filter_In in Hin. destruct Hin as [_ Hp].
    destruct p; simpl in *; auto.
  - unfold connect. now rewrite !(listen_ignoring _ _ Hig), filter_idempotent.
  - intros msgs evs -> Hall. unfold connect.
    rewrite (listen_ignoring _ _ Hig), filter_passes_yields, map_map.
    now apply serve_decoded.
Qed.

(** The bus acknowledges both subscriptions, then delivers two messages. *)
Lemma stream_sees_data_events_only_witness :
  written (connect session subscribed
             [Yields (acknowledgement "avatar" 1);
              Yields (acknowledgement "profile" 2);
              Yields (published "profile" (encode_utf8 "42"));
              Yields (published "avatar" (encode_utf8 "7"))])
  = [EmptyString; wire_frame 1 "profile" "42"; wire_frame 2 "avatar" "7"].
Proof.
  refine (proj2 (proj2 (proj2
            (stream_sees_data_events_only NotificationView sse_request idle
               subscribed session _ index_session)))
            [acknowledgement "avatar" 1; acknowledgement "profile" 2;
             published "profile" (encode_utf8 "42");
             published "avatar" (encode_utf8 "7")]
            [("profile", "42"); ("avatar", "7")] eq_refl _).
  repeat constructor.
Defined.

End NotificationFacts.

(** ** Sorting *)

Section SortingFacts.

Import Builtins.

Lemma ascii_compare_trans_le (a b c : ascii) :
  Ascii.compare a b <> Gt -> Ascii.compare b c <> Gt -> Ascii.compare a c <> Gt.
Proof.
  unfold Ascii.compare. rewrite !N.compare_le_iff. lia.
Qed.

(** The order on texts is transitive. *)
Lemma string_leb_trans (s1 : string) :
  forall s2 s3,
    String.leb s1 s2 = true -> String.leb s2 s3 = true -> String.leb s1 s3 = true.
Proof.
  unfold String.leb.
  induction s1 as [|a s1 IH]; intros [|b s2] [|c s3]; simpl; try easy.
  unfold Ascii.compare.
  destruct (N.compare_spec (N_of_ascii a) (N_of_ascii b)) as [Hab|Hab|Hab];
    destruct (N.compare_spec (N_of_ascii b) (N_of_ascii c)) as [Hbc|Hbc|Hbc];
    destruct (N.compare_spec (N_of_ascii a) (N_of_ascii c)) as [Hac|Hac|Hac];
    try easy; try lia.
  apply IH.
Qed.

Lemma string_ltb_leb (s1 s2 : string) :
  String.ltb s1 s2 = true -> String.leb s1 s2 = true.
Proof.
  unfold String.ltb, String.leb. now destruct (String.compare s1 s2).
Qed.

Lemma string_not_ltb_leb (s1 s2 : string) :
  String.ltb s1 s2 = false -> String.leb s2 s1 = true.
Proof.
  unfold String.ltb, String.leb. rewrite (String.compare_antisym s2 s1).
  now destruct (String.compare s1 s2).
Qed.

Context {A : Type} (key : A -> string).

Lemma sorted_cons (reverse : bool) (x : A) (l : list A) :
  sorted key reverse (x :: l)
  = insert (stays_before key reverse) x (sorted key reverse l).
Proof. reflexivity. Qed.

Lemma stays_before_in_order (reverse : bool) (y x : A) :
  stays_before key reverse y x = true -> in_order key reverse y x.
Proof.
  unfold stays_before, in_order. destruct reverse; apply string_ltb_leb.
Qed.

Lemma not_stays_before_in_order (reverse : bool) (y x : A) :
  stays_before key reverse y x = false -> in_order key reverse x y.
Proof.
  unfold stays_before, in_order. destruct reverse; apply string_not_ltb_leb.
Qed.

Lemma in_order_trans (reverse : bool) (a b c : A) :
  in_order key reverse a b -> in_order key reverse b c -> in_order key reverse a c.
Proof.
  unfold in_order. destruct reverse; intros H1 H2.
  - exact (string_leb_trans _ _ _ H2 H1).
  - exact (string_leb_trans _ _ _ H1 H2).
Qed.

Lemma insert_perm (f : A -> A -> bool) (x : A) (l : list A) :
  Permutation (x :: l) (insert f x l).
Proof.
  induction l as [|y l IH]; simpl; [constructor; constructor|].
  destruct (f y x); [|apply Permutation_refl].
  eapply perm_trans; [apply perm_swap|]. now constructor.
Qed.

Lemma sorted_perm (reverse : bool) (l : list A) :
  Permutation l (sorted key reverse l).
Proof.
  induction l as [|x l IH]; [constructor|].
  rewrite sorted_cons.
  eapply perm_trans; [|apply insert_perm]. now constructor.
Qed.

Lemma insert_hd (reverse : bool) (a x : A) (l : list A) :
  in_order key reverse a x ->
  HdRel (in_order key reverse) a l ->
  HdRel (in_order key reverse) a (insert (stays_before key reverse) x l).
Proof.
  intros Hax Hal. destruct l as [|y l]; simpl; [now constructor|].
  destruct (stays_before key reverse y x); constructor; auto.
  now inversion Hal.
Qed.

Lemma insert_sorted (reverse : bool) (x : A) (l : list A) :
  Sorted (in_order key reverse) l ->
  Sorted (in_order key reverse) (insert (stays_before key reverse) x l).
Proof.
  induction 1 as [|y l Hs IH Hhd]; simpl; [repeat constructor|].
  destruct (stays_before key reverse y x) eqn:E.
  - constructor; [exact IH|].
    apply insert_hd; [now apply stays_before_in_order|exact Hhd].
  - constructor; [now constructor|].
    constructor. now apply not_stays_before_in_order.
Qed.

(** The result of [sorted] is in order, any two of its elements, not only
    neighbours. *)
Lemma sorted_in_order (reverse : bool) (l : list A) :
  StronglySorted (in_order key reverse) (sorted key reverse l).
Proof.
  apply Sorted_StronglySorted.
  - intros a b c. apply in_order_trans.
  - induction l as [|x l IH]; [constructor|].
    rewrite sorted_cons. now apply insert_sorted.
Qed.

(** An element that is inserted stays in front of the elements of its key:
    the sort is stable. *)
Lemma insert_stable (reverse : bool) (k : string) (x : A) (l : list A) :
  filter (fun a => String.eqb (key a) k) (insert (stays_before key reverse) x l)
  = filter (fun a => String.eqb (key a) k) (x :: l).
Proof.
  induction l as [|y l IH]; [reflexivity|].
  cbn [insert]. destruct (stays_before key reverse y x) eqn:E; [|reflexivity].
  cbn [filter] in *. rewrite IH.
  destruct (String.eqb (key x) k) eqn:Ex; [|reflexivity].
  destruct (String.eqb (key y) k) eqn:Ey; [|reflexivity].
  apply String.eqb_eq in Ex, Ey. exfalso.
  unfold stays_before, String.ltb in E. rewrite Ex, Ey in E.
  assert (Hk : String.compare k k = Eq).
  { pose proof (String.compare_antisym k k) as H.
    destruct (String.compare k k); simpl in H; congruence. }
  rewrite Hk in E. destruct reverse; discriminate.
Qed.

Lemma sorted_stable (reverse : bool) (k : string) (l : list A) :
  filter (fun a => String.eqb (key a) k) (sorted key reverse l)
  = filter (fun a => String.eqb (key a) k) l.
Proof.
  induction l as [|x l IH]; [reflexivity|].
  rewrite sorted_cons, insert_stable. cbn [filter]. now rewrite IH.
Qed.

End SortingFacts.

(** ** The profile model *)

Section ModelFacts.

Import Py Builtins Model ModelSamples.

Example isoformat_whole_second :
  isoformat (moment 8 0 0 0) = "2016-02-03T08:00:00".
Proof. reflexivity. Qed.

Example isoformat_microseconds :
  isoformat (moment 10 0 0 5) = "2016-02-03T10:00:00.000005".
Proof. reflexivity. Qed.

(** C9.  Constructing a [Profile] succeeds and leaves exactly one entry in
    [usernames], so the collection is not empty.  With a text, [username]
    is that text and the entry is a new [ProfileUsername] of that text whose
    [start_date] and [end_date] are both the timestamp read at
    construction; with a [ProfileUsername], [username] is its [username]
    attribute and the entry is that instance. *)
Theorem profile_init_usernames
    (dateutil_parse : string -> result datetime) (Label float : Type)
    (now : datetime) (site_ upstream_id_ : string)
    (username_ : username_arg) (is_stub_ : bool) :
  exists self : Profile Label float,
    Profile_init dateutil_parse Label float now site_ upstream_id_ username_ is_stub_
    = Ok self
    /\ List.length (usernames self) = 1%nat
    /\ match username_ with
       | Text s =>
           username self = Some s
           /\ usernames self
              = [{| pu_id := None; pu_username := Some s;
                    pu_start_date := Some now; pu_end_date := Some now;
                    pu_profile_id := None |}]
       | Instance u =>
           username self = pu_username u /\ usernames self = [u]
       end
    /\ site self = Some site_
    /\ upstream_id self = Some upstream_id_
    /\ is_stub self = Some is_stub_.
Proof.
  destruct username_ as [s|u]; eexists; (split; [reflexivity|]);
    simpl; repeat split; reflexivity.
Qed.

Example profile_init_text :
  option_map (fun self => (username self, usernames self))
    (match Profile_init parse_nothing label Z (moment 9 30 0 125)
             "twitter" "12" (Text "john") false with
     | Ok self => Some self
     | Raise _ => None
     end)
  = Some (Some "john",
          [{| pu_id := None; pu_username := Some "john";
              pu_start_date := Some (moment 9 30 0 125);
              pu_end_date := Some (moment 9 30 0 125);
              pu_profile_id := None |}]).
Proof. reflexivity. Qed.

Lemma comprehension_map {A B : Type} (f : A -> result B) (l : list A) (ys : list B) :
  comprehension f l = Ok ys -> Forall2 (fun x y => f x = Ok y) l ys.
Proof.
  revert ys. induction l as [|x l IH]; simpl; intros ys H.
  - injection H as <-. constructor.
  - destruct (f x) as [y|] eqn:E; [|discriminate]. simpl in H.
    destruct (comprehension f l) as [ys'|]; [|discriminate].
    injection H as <-. constructor; auto.
Qed.

Lemma comprehension_total {A B : Type} (f : A -> result B) (l : list A) :
  Forall (fun x => exists y, f x = Ok y) l -> exists ys, comprehension f l = Ok ys.
Proof.
  induction 1 as [|x l [y Hy] _ [ys Hys]]; simpl.
  - now exists [].
  - rewrite Hy, Hys. simpl. now exists (y :: ys).
Qed.

Section WithLabels.

Context {Label label_dict float : Type}.
Context (label_as_dict : Label -> label_dict) (label_name : label_dict -> string).

(** What [as_dict] needs to return: a [last_update], a [created_at] on every
    note, and a [site] that [SOCIAL_SITES] knows. *)
Lemma as_dict_returns (self : Profile Label float) :
  last_update self <> None ->
  Forall (fun n => note_created_at n <> None) (notes self) ->
  (site self = Some "twitter" \/ site self = Some "instagram") ->
  exists d, as_dict label_as_dict label_name self = Ok d.
Proof.
  intros Hlu Hnotes Hsite. unfold as_dict.
  destruct (comprehension_total ProfileNote_as_dict (notes self)) as [ns ->].
  { eapply Forall_impl; [|exact Hnotes]. intros n Hn. unfold ProfileNote_as_dict.
    destruct (note_created_at n) eqn:E; [eexists; reflexivity|congruence]. }
  destruct (last_update self) eqn:E; [|congruence].
  unfold site_name. destruct Hsite as [-> | ->]; simpl; eexists; reflexivity.
Qed.

(** Whatever [as_dict] returns is in order: [labels] holds the dictionaries
    of the profile's labels in ascending order of their [name], and [notes]
    those of its notes in descending order of their [created_at]. *)
Lemma as_dict_sorts_labels_and_notes
    (self : Profile Label float) (d : profile_dict label_dict float) :
  as_dict label_as_dict label_name self = Ok d ->
  StronglySorted
    (fun a b => String.leb (label_name a) (label_name b) = true) (d_labels d)
  /\ Permutation (map label_as_dict (labels self)) (d_labels d)
  /\ StronglySorted
       (fun a b => String.leb (nd_created_at b) (nd_created_at a) = true)
       (d_notes d)
  /\ exists ns,
       Forall2 (fun n nd => ProfileNote_as_dict n = Ok nd) (notes self) ns
       /\ Permutation ns (d_notes d).
Proof.
  unfold as_dict. intros H.
  destruct (comprehension ProfileNote_as_dict (notes self)) as [ns|] eqn:Hns;
    [|discriminate].
  simpl in H.
  destruct (last_update self); [|discriminate]. simpl in H.
  destruct (site_name self); [|discriminate]. simpl in H.
  injection H as <-. simpl.
  split; [exact (sorted_in_order label_name false _)|].
  split; [apply sorted_perm|].
  split; [exact (sorted_in_order nd_created_at true _)|].
  exists ns. split; [now apply comprehension_map|apply sorted_perm].
Qed.

(** C10 (amended).  For every profile that has a [last_update], whose notes
    all have a [created_at] and whose site is [twitter] or [instagram],
    [as_dict] returns a dictionary, in which [labels] holds the dictionaries
    of the profile's labels in ascending order of their [name], and [notes]
    those of its notes in descending order of their [created_at], whatever
    the order of the two relationships. *)
Theorem as_dict_returns_sorted (self : Profile Label float) :
  last_update self <> None ->
  Forall (fun n => note_created_at n <> None) (notes self) ->
  (site self = Some "twitter" \/ site self = Some "instagram") ->
  exists d,
    as_dict label_as_dict label_name self = Ok d
    /\ StronglySorted
         (fun a b => String.leb (label_name a) (label_name b) = true)
         (d_labels d)
    /\ Permutation (map label_as_dict (labels self)) (d_labels d)
    /\ StronglySorted
         (fun a b => String.leb (nd_created_at b) (nd_created_at a) = true)
         (d_notes d)
    /\ exists ns,
         Forall2 (fun n nd => ProfileNote_as_dict n = Ok nd) (notes self) ns
         /\ Permutation ns (d_notes d).
Proof.
  intros Hlu Hnotes Hsite.
  destruct (as_dict_returns self Hlu Hnotes Hsite) as [d Hd].
  exists d. split; [exact Hd|].
  now apply as_dict_sorts_labels_and_notes.
Qed.

End WithLabels.

(** C10, as stated, fails: on a profile that was only constructed [as_dict]
    returns no dictionary at all, sorted or not: [last_update] is not set
    and line 178 raises [AttributeError]. *)
Lemma as_dict_raises_on_constructed :
  Profile_init parse_nothing label Z (moment 9 30 0 125)
    "twitter" "12" (Text "john") false
  = Ok MoreSamples.constructed
  /\ as_dict label_as_dict label_name MoreSamples.constructed
     = Raise AttributeError.
Proof. split; reflexivity. Qed.

Lemma as_dict_stored :
  exists d,
    as_dict label_as_dict label_name stored = Ok d
    /\ d_labels d = [(2, "east"); (3, "north"); (1, "west")]
    /\ map nd_id (d_notes d) = [Some 2; Some 3; Some 1]
    /\ map nd_created_at (d_notes d)
       = ["2016-02-03T10:00:00.000005"; "2016-02-03T09:00:00";
          "2016-02-03T08:00:00"]
    /\ d_last_update d = "2016-02-03T09:30:00"
    /\ d_site_name d = "Twitter".
Proof. eexists. split; [reflexivity|]. repeat split. Qed.

Lemma as_dict_returns_sorted_witness :
  exists d,
    as_dict label_as_dict label_name stored = Ok d
    /\ StronglySorted
         (fun a b => String.leb (label_name a) (label_name b) = true)
         (d_labels d)
    /\ StronglySorted
         (fun a b => String.leb (nd_created_at b) (nd_created_at a) = true)
         (d_notes d).
Proof.
  assert (Hlu : last_update stored <> None) by (simpl; discriminate).
  assert (Hnotes : Forall (fun n => note_created_at n <> None) (notes stored))
    by (simpl; repeat constructor; simpl; discriminate).
  assert (Hsite : site stored = Some "twitter" \/ site stored = Some "instagram")
    by (left; reflexivity).
  destruct (as_dict_returns_sorted label_as_dict label_name stored
              Hlu Hnotes Hsite) as (d & Hd & Hl & _ & Hn & _).
  exists d. auto.
Defined.

End ModelFacts.

(** ** More on the stream *)

Section StreamFacts.

Import Py Notification Delivery Samples.

Lemma loop_body_event_of (event_id : Z) (m : message) :
  loop_body event_id m
  = match event_of m with
    | Ok ev => Ok (wire_frame event_id (fst ev) (snd ev))
    | Raise e => Raise e
    end.
Proof.
  unfold loop_body, event_of.
  destruct (decode_utf8 (channel m)) as [c|e]; [|reflexivity]. simpl.
  destruct (decode_payload (data m)) as [d|e]; [|reflexivity]. simpl.
  apply encode_wire_frame.
Qed.

Lemma event_of_decodes (m : message) (ev : string * string) :
  event_of m = Ok ev -> decodes_to m ev.
Proof.
  unfold event_of, decodes_to.
  destruct (decode_utf8 (channel m)) as [c|e]; [|discriminate]. simpl.
  destruct (decode_payload (data m)) as [d|e]; [|discriminate]. simpl.
  now intros [= <-].
Qed.

(** A signal that is not a message that decodes finishes a running
    generator and writes nothing. *)
Lemma react_ends (s : signal) (c : connection) :
  running c ->
  delivered [s] = [] ->
  written (react s c) = written c /\ finished (at_ (gen (react s c))) = true.
Proof.
  intros Hrun Hd. unfold react.
  destruct Hrun as [Hph | [k Hph]]; rewrite Hph;
    destruct s as [[m| |]| |]; cbn [resume iterate]; simpl; auto;
    rewrite loop_body_event_of; simpl in Hd;
    destruct (event_of m); try discriminate; simpl; auto.
Qed.

Lemma drive_delivered (signals : list signal) :
  forall c,
    running c ->
    written (drive signals c)
    = (written c ++ numbered (next_event_id (at_ (gen c))) (delivered signals))%list.
Proof.
  induction signals as [|s signals IH]; intros c Hrun.
  - simpl. now rewrite app_nil_r.
  - rewrite drive_cons.
    destruct (delivered [s]) as [|ev l] eqn:Hs.
    + destruct (react_ends s c Hrun Hs) as (Hw & Hfin).
      destruct (at_ (gen (react s c))) as [| | |o] eqn:Hph; try discriminate.
      rewrite (drive_finished signals _ o Hph), Hw.
      assert (Hd : delivered (s :: signals) = []).
      { destruct s as [[m| |]| |]; simpl in *; auto.
        destruct (event_of m); [discriminate|reflexivity]. }
      rewrite Hd. simpl. now rewrite app_nil_r.
    + destruct s as [[m| |]| |]; simpl in Hs; try discriminate.
      destruct (event_of m) as [ev'|e] eqn:Hev; [|discriminate].
      destruct (react_decoded c m ev' Hrun (event_of_decodes _ _ Hev))
        as (Hw & Hp & _).
      rewrite IH by (right; eexists; exact Hp).
      rewrite Hw, Hp. cbn [delivered]. rewrite Hev.
      destruct ev' as [ch pl]. cbn [numbered next_event_id fst snd].
      now rewrite <- app_assoc.
Qed.

Lemma drive_counter (signals : list signal) :
  forall c,
    running c ->
    finished (at_ (gen (drive signals c))) = false ->
    next_event_id (at_ (gen (drive signals c)))
    = next_event_id (at_ (gen c)) + Z.of_nat (List.length (delivered signals)).
Proof.
  induction signals as [|s signals IH]; intros c Hrun Hfin.
  - simpl. lia.
  - rewrite drive_cons in *.
    destruct (delivered [s]) as [|ev l] eqn:Hs.
    + destruct (react_ends s c Hrun Hs) as (_ & Hend).
      destruct (at_ (gen (react s c))) as [| | |o] eqn:Hph; try discriminate.
      rewrite (drive_finished signals _ o Hph), Hph in Hfin. discriminate.
    + destruct s as [[m| |]| |]; simpl in Hs; try discriminate.
      destruct (event_of m) as [ev'|e] eqn:Hev; [|discriminate].
      destruct (react_decoded c m ev' Hrun (event_of_decodes _ _ Hev))
        as (_ & Hp & _).
      rewrite IH; [|right; eexists; exact Hp|exact Hfin].
      rewrite Hp. cbn [delivered next_event_id]. rewrite Hev.
      cbn [List.length]. lia.
Qed.

(** X1.  What is written on a connection [index] opened is, whatever the
    signals, the priming string followed by the frames of the messages
    handed over before the stream ended, numbered 1, 2, ... in the order of
    arrival; while the generator runs, its counter is one more than the
    number of frames written. *)
Theorem serve_writes_delivered
    (cls : view) (req : request) (w0 w : world) (r : response)
    (signals : list signal) :
  index cls req w0 = (Ok r, w) ->
  written (serve r w signals) = EmptyString :: numbered 1 (delivered signals)
  /\ (finished (at_ (gen (serve r w signals))) = false ->
      next_event_id (at_ (gen (serve r w signals)))
      = 1 + Z.of_nat (List.length (delivered signals))).
Proof.
  intros Hidx.
  destruct (index_ok_not_started _ _ _ _ _ Hidx) as (Hns & _).
  destruct (open_not_started r w Hns) as (Hw & Hp & _).
  assert (Hrun : running (open r w)) by now left.
  split.
  - unfold serve. rewrite (drive_delivered signals _ Hrun), Hw, Hp. reflexivity.
  - intros Hfin. pose proof (drive_counter signals _ Hrun Hfin) as Hc.
    fold (serve r w signals) in Hc. now rewrite Hp in Hc.
Qed.

(** A message, a message that does not decode, a message that is never
    looked at. *)
Lemma serve_writes_delivered_witness :
  written (serve session subscribed
             [Source (Yields (published "profile" (encode_utf8 "42")));
              Source (Yields (published "avatar" [xff]));
              Source (Yields (published "avatar" (encode_utf8 "7")))])
  = [EmptyString; wire_frame 1 "profile" "42"].
Proof.
  exact (proj1 (serve_writes_delivered NotificationView sse_request idle
                  subscribed session _ index_session)).
Defined.

Lemma string_length_append (s t : string) :
  String.length (s ++ t) = (String.length s + String.length t)%nat.
Proof. induction s as [|a s IH]; simpl; auto. Qed.

Lemma string_append_assoc (s t u : string) :
  ((s ++ t) ++ u = s ++ (t ++ u))%string.
Proof. induction s as [|a s IH]; simpl; congruence. Qed.

Lemma string_append_cancel_r (t : string) :
  forall s s' : string, (s ++ t = s' ++ t)%string -> s = s'.
Proof.
  induction s as [|a s IH]; intros [|a' s'] H; simpl in H.
  - reflexivity.
  - apply (f_equal String.length) in H. simpl in H.
    rewrite string_length_append in H. lia.
  - apply (f_equal String.length) in H. simpl in H.
    rewrite string_length_append in H. lia.
  - injection H as -> H. f_equal. now apply IH.
Qed.

(** Two texts cut at the first occurrence of a character are cut alike. *)
Lemma lacks_split (a : ascii) :
  forall s1 s2 r1 r2 : string,
    lacks a s1 = true -> lacks a s2 = true ->
    (s1 ++ String a r1 = s2 ++ String a r2)%string ->
    s1 = s2 /\ r1 = r2.
Proof.
  induction s1 as [|b s1 IH]; intros [|b' s2] r1 r2 H1 H2 H; simpl in *.
  - injection H as ->. auto.
  - injection H as -> _. rewrite Ascii.eqb_refl in H2. discriminate.
  - injection H as <- _. rewrite Ascii.eqb_refl in H1. discriminate.
  - injection H as -> H.
    apply andb_true_iff in H1, H2.
    destruct (IH s2 r1 r2 (proj2 H1) (proj2 H2) H) as [-> ->]. auto.
Qed.

Lemma digits_one_line (d : Decimal.uint) :
  one_line (NilEmpty.string_of_uint d) = true.
Proof. induction d; simpl; auto. Qed.

Lemma str_of_int_one_line (n : Z) : one_line (str_of_int n) = true.
Proof.
  unfold str_of_int.
  destruct (Z.to_int n) as [d|d]; simpl.
  - destruct d; try apply (digits_one_line (Decimal.D0 _)); try reflexivity;
      apply digits_one_line || (simpl; apply digits_one_line).
  - destruct d; simpl; try reflexivity; apply digits_one_line.
Qed.

Lemma wire_frame_id (s s' : Z) (c c' p p' : string) :
  wire_frame s c p = wire_frame s' c' p' ->
  s = s'
  /\ ("event: " ++ c ++ nl ++ "data: " ++ p ++ nl ++ nl
      = "event: " ++ c' ++ nl ++ "data: " ++ p' ++ nl ++ nl)%string.
Proof.
  unfold wire_frame. intros H. cbn [append] in H. injection H as H.
  apply lacks_split in H; try apply str_of_int_one_line.
  destruct H as [Hs H]. split; [now apply str_of_int_inj|exact H].
Qed.

(** X3.  A frame tells its event: two events whose channel names hold no
    line break, as the names of the registry do, and which encode to the
    same frame have the same sequence id, channel and payload. *)
Theorem encode_determines_event (s s' : Z) (c c' p p' : string) :
  one_line c = true ->
  one_line c' = true ->
  encode s c p = encode s' c' p' ->
  s = s' /\ c = c' /\ p = p'.
Proof.
  intros Hc Hc' H0. rewrite !encode_wire_frame in H0.
  assert (H : wire_frame s c p = wire_frame s' c' p') by congruence.
  clear H0. apply wire_frame_id in H. destruct H as [Hs H]. split; [exact Hs|].
  cbn [append] in H. injection H as H.
  apply lacks_split in H; auto. destruct H as [Hcc H]. split; [exact Hcc|].
  injection H as H.
  now apply string_append_cancel_r in H.
Qed.

Lemma encode_determines_event_witness :
  forallb one_line (CHANNELS NotificationView) = true
  /\ (1 = 1 /\ "profile" = "profile" /\ "42" = "42").
Proof.
  split; [reflexivity|].
  apply (encode_determines_event 1 1 "profile" "profile" "42" "42");
    reflexivity.
Defined.

(** With a line break in the channel name the frame is ambiguous. *)
Example encode_ambiguous_with_line_break :
  encode 1 ("a" ++ nl ++ "data: b") "c" = encode 1 "a" ("b" ++ nl ++ "data: c").
Proof. reflexivity. Qed.

Lemma numbered_in (f : string) (evs : list (string * string)) :
  forall first,
    In f (numbered first evs) ->
    exists j c p, first <= j /\ f = wire_frame j c p.
Proof.
  induction evs as [|[c p] evs IH]; intros first Hin; simpl in Hin; [easy|].
  destruct Hin as [<- | Hin].
  - exists first, c, p. split; [lia|reflexivity].
  - destruct (IH _ Hin) as (j & c' & p' & Hj & ->).
    exists j, c', p'. split; [lia|reflexivity].
Qed.

Lemma numbered_nodup (evs : list (string * string)) :
  forall first, NoDup (numbered first evs).
Proof.
  induction evs as [|[c p] evs IH]; intros first; simpl; constructor; auto.
  intros Hin. destruct (numbered_in _ _ _ Hin) as (j & c' & p' & Hj & Heq).
  apply wire_frame_id in Heq. lia.
Qed.

(** X4.  No string is written twice on a connection: the frames differ in
    their ids, and none of them is the empty priming string. *)
Theorem serve_writes_no_duplicate
    (cls : view) (req : request) (w0 w : world) (r : response)
    (signals : list signal) :
  index cls req w0 = (Ok r, w) ->
  NoDup (written (serve r w signals)).
Proof.
  intros Hidx.
  destruct (index_ok_not_started _ _ _ _ _ Hidx) as (Hns & _).
  destruct (open_not_started r w Hns) as (Hw & Hp & _).
  assert (Hrun : running (open r w)) by now left.
  unfold serve. rewrite (drive_delivered signals _ Hrun), Hw, Hp.
  cbn [app next_event_id]. constructor; [|apply numbered_nodup].
  intros Hin. destruct (numbered_in _ _ _ Hin) as (j & c & p & _ & Heq).
  discriminate.
Qed.

Lemma serve_writes_no_duplicate_witness :
  NoDup (written (serve session subscribed
                    [Source (Yields (published "profile" (encode_utf8 "42")));
                     Source (Yields (published "profile" (encode_utf8 "42")))])).
Proof.
  exact (serve_writes_no_duplicate NotificationView sse_request idle
           subscribed session _ index_session).
Defined.

End StreamFacts.

(** ** More on the profile model *)

Section ProfileFacts.

Import Py Builtins Model ModelSamples.

(** X5.  [as_dict] cannot be called on a profile that was only constructed:
    [last_update] is filled in by the database, so until then line 178
    raises [AttributeError]. *)
Theorem constructed_profile_has_no_dict
    (dateutil_parse : string -> result datetime)
    (Label label_dict float : Type)
    (label_as_dict : Label -> label_dict) (label_name : label_dict -> string)
    (now : datetime) (site_ upstream_id_ : string)
    (username_ : username_arg) (is_stub_ : bool) :
  exists self : Profile Label float,
    Profile_init dateutil_parse Label float now site_ upstream_id_ username_ is_stub_
    = Ok self
    /\ last_update self = None
    /\ as_dict label_as_dict label_name self = Raise AttributeError.
Proof.
  destruct username_ as [s|u]; eexists; (split; [reflexivity|]); split;
    reflexivity.
Qed.

Section WithLabelTypes.

Context {Label label_dict float : Type}.
Context (label_as_dict : Label -> label_dict) (label_name : label_dict -> string).

Lemma site_name_cases (self : Profile Label float) :
  (site_name self = Ok "Twitter" /\ site self = Some "twitter")
  \/ (site_name self = Ok "Instagram" /\ site self = Some "instagram")
  \/ (site_name self = Raise KeyError /\ site self <> Some "twitter"
      /\ site self <> Some "instagram").
Proof.
  unfold site_name, SOCIAL_SITES.
  destruct (site self) as [s|]; cbn [getitem].
  - destruct (String.eqb_spec "twitter" s) as [<-|Ht]; [now left|].
    destruct (String.eqb_spec "instagram" s) as [<-|Hi]; [now right; left|].
    right; right. repeat split; congruence.
  - right; right. repeat split; discriminate.
Qed.

(** X7.  [site_name] answers [Twitter] for [twitter] and [Instagram] for
    [instagram]; for any other site, or none, the lookup raises
    [KeyError]. *)
Theorem site_name_lookup (self : Profile Label float) :
  (forall n, site_name self = Ok n
             <-> (site self = Some "twitter" /\ n = "Twitter")
                 \/ (site self = Some "instagram" /\ n = "Instagram"))
  /\ (forall e, site_name self = Raise e -> e = KeyError)
  /\ (site self <> Some "twitter" -> site self <> Some "instagram" ->
      site_name self = Raise KeyError).
Proof.
  destruct (site_name_cases self) as [[-> Hs]|[[-> Hs]|(-> & H1 & H2)]].
  - split; [intros n; split|split]; try congruence.
    + intros [= <-]. now left.
    + intros [[_ ->]|[H _]]; congruence.
  - split; [intros n; split|split]; try congruence.
    + intros [= <-]. now right.
    + intros [[H _]|[_ ->]]; congruence.
  - split; [intros n; split|split]; try congruence.
    intros [[H _]|[H _]]; congruence.
Qed.

Lemma comprehension_raises {A B : Type} (f : A -> result B) (l : list A) (e : exn) :
  comprehension f l = Raise e -> exists x, In x l /\ f x = Raise e.
Proof.
  induction l as [|x l IH]; simpl; [discriminate|].
  destruct (f x) as [y|e'] eqn:E; simpl.
  - destruct (comprehension f l) as [ys|e'']; simpl; [discriminate|].
    intros [= <-]. destruct (IH eq_refl) as (x' & Hin & Hx). eauto.
  - intros [= <-]. eauto.
Qed.

(** X6.  [as_dict] returns exactly when the profile has a [last_update], each
    of its notes has a [created_at], and its site is [twitter] or
    [instagram]; otherwise it raises [AttributeError] or [KeyError], and
    nothing else. *)
Theorem as_dict_returns_iff (self : Profile Label float) :
  ((exists d, as_dict label_as_dict label_name self = Ok d)
   <-> last_update self <> None
       /\ Forall (fun n => note_created_at n <> None) (notes self)
       /\ (site self = Some "twitter" \/ site self = Some "instagram"))
  /\ (forall e, as_dict label_as_dict label_name self = Raise e ->
                e = AttributeError \/ e = KeyError).
Proof.
  split; [split|].
  - intros [d H]. unfold as_dict in H.
    destruct (comprehension ProfileNote_as_dict (notes self)) as [ns|] eqn:Hns;
      [|discriminate].
    simpl in H.
    destruct (last_update self) as [t|]; [|discriminate]. simpl in H.
    destruct (site_name self) as [nm|] eqn:Hsn; [|discriminate].
    split; [discriminate|split].
    + apply comprehension_map in Hns. clear -Hns.
      induction Hns as [|n nd l l' Hn _ IH]; constructor; auto.
      unfold ProfileNote_as_dict in Hn.
      destruct (note_created_at n); [discriminate|discriminate].
    + destruct (site_name_cases self) as [[_ Hs]|[[_ Hs]|(Hk & _)]]; auto.
      congruence.
  - intros (Hlu & Hnotes & Hsite). now apply as_dict_returns.
  - intros e H. unfold as_dict in H.
    destruct (comprehension ProfileNote_as_dict (notes self)) as [ns|e'] eqn:Hns.
    + simpl in H. destruct (last_update self) as [t|]; simpl in H.
      * destruct (site_name self) as [nm|e''] eqn:Hsn; simpl in H; [discriminate|].
        injection H as <-. right.
        destruct (site_name_cases self) as [[Hk _]|[[Hk _]|(Hk & _)]]; congruence.
      * injection H as <-. now left.
    + simpl in H. injection H as <-. left.
      destruct (comprehension_raises _ _ _ Hns) as (n & _ & Hn).
      unfold ProfileNote_as_dict in Hn.
      destruct (note_created_at n); [discriminate|congruence].
Qed.

(** X8.  The two sorts of [as_dict] are stable: labels of the same name, and
    notes of the same [created_at], come out in the order the relationship
    holds them. *)
Theorem as_dict_keeps_order_of_ties
    (self : Profile Label float) (d : profile_dict label_dict float) :
  as_dict label_as_dict label_name self = Ok d ->
  (forall k,
     filter (fun x => String.eqb (label_name x) k) (d_labels d)
     = filter (fun x => String.eqb (label_name x) k)
         (map label_as_dict (labels self)))
  /\ exists ns,
       comprehension ProfileNote_as_dict (notes self) = Ok ns
       /\ forall k,
            filter (fun x => String.eqb (nd_created_at x) k) (d_notes d)
            = filter (fun x => String.eqb (nd_created_at x) k) ns.
Proof.
  unfold as_dict. intros H.
  destruct (comprehension ProfileNote_as_dict (notes self)) as [ns|] eqn:Hns;
    [|discriminate].
  simpl in H.
  destruct (last_update self); [|discriminate]. simpl in H.
  destruct (site_name self); [|discriminate]. simpl in H.
  injection H as <-. simpl. split.
  - intros k. apply sorted_stable.
  - exists ns. split; [reflexivity|]. intros k. apply sorted_stable.
Qed.

Lemma strongly_sorted_unique {A : Type} (key : A -> string) (reverse : bool) :
  forall l1 l2 : list A,
    NoDup (map key l1) ->
    Permutation l1 l2 ->
    StronglySorted (in_order key reverse) l1 ->
    StronglySorted (in_order key reverse) l2 ->
    l1 = l2.
Proof.
  assert (Hanti : forall a b, in_order key reverse a b ->
                              in_order key reverse b a -> key a = key b).
  { unfold in_order. destruct reverse; intros a b H1 H2.
    - now apply String.leb_antisym.
    - now apply String.leb_antisym. }
  induction l1 as [|a l1 IH]; intros l2 Hnd Hperm Hs1 Hs2.
  - apply Permutation_nil in Hperm. now subst.
  - destruct l2 as [|b l2];
      [apply Permutation_sym, Permutation_nil in Hperm; discriminate|].
    assert (Hab : a = b).
    { assert (Ha : In a (b :: l2))
        by (eapply Permutation_in; [exact Hperm|now left]).
      assert (Hb : In b (a :: l1))
        by (eapply Permutation_in;
            [apply Permutation_sym; exact Hperm|now left]).
      destruct Ha as [<-|Ha]; [reflexivity|].
      destruct Hb as [Hb|Hb]; [exact Hb|]. exfalso.
      apply StronglySorted_inv in Hs1, Hs2.
      destruct Hs1 as [_ Hs1], Hs2 as [_ Hs2].
      rewrite Forall_forall in Hs1, Hs2.
      pose proof (Hanti _ _ (Hs1 _ Hb) (Hs2 _ Ha)) as Hk.
      inversion Hnd as [|? ? Hnotin _]; subst.
      apply Hnotin. rewrite Hk. now apply in_map. }
    subst b. f_equal.
    apply IH.
    + now inversion Hnd.
    + now apply Permutation_cons_inv in Hperm.
    + now apply StronglySorted_inv in Hs1.
    + now apply StronglySorted_inv in Hs2.
Qed.

Lemma sorted_permuted {A : Type} (key : A -> string) (reverse : bool)
    (l1 l2 : list A) :
  NoDup (map key l1) ->
  Permutation l1 l2 ->
  sorted key reverse l1 = sorted key reverse l2.
Proof.
  intros Hnd Hperm.
  apply (strongly_sorted_unique key reverse).
  - eapply Permutation_NoDup; [|exact Hnd].
    apply Permutation_map, sorted_perm.
  - eapply perm_trans; [apply Permutation_sym, sorted_perm|].
    eapply perm_trans; [exact Hperm|apply sorted_perm].
  - apply sorted_in_order.
  - apply sorted_in_order.
Qed.

(** X9.  When the labels of a profile have different names, the [labels] of
    its dictionary do not depend on the order in which the relationship
    holds them: two profiles whose labels are the same up to order get the
    same list. *)
Theorem as_dict_labels_order_independent
    (self self' : Profile Label float) (d d' : profile_dict label_dict float) :
  as_dict label_as_dict label_name self = Ok d ->
  as_dict label_as_dict label_name self' = Ok d' ->
  Permutation (labels self) (labels self') ->
  NoDup (map (fun l => label_name (label_as_dict l)) (labels self)) ->
  d_labels d = d_labels d'.
Proof.
  unfold as_dict. intros H H' Hperm Hnd.
  destruct (comprehension ProfileNote_as_dict (notes self)); [|discriminate].
  destruct (comprehension ProfileNote_as_dict (notes self')); [|discriminate].
  simpl in H, H'.
  destruct (last_update self); [|discriminate].
  destruct (last_update self'); [|discriminate]. simpl in H, H'.
  destruct (site_name self); [|discriminate].
  destruct (site_name self'); [|discriminate]. simpl in H, H'.
  injection H as <-. injection H' as <-. simpl.
  apply sorted_permuted.
  - now rewrite map_map.
  - now apply Permutation_map.
Qed.

End WithLabelTypes.

End ProfileFacts.

Section ConstructorFacts.

Import Py Builtins Model ModelSamples MoreSamples.

Example as_dict_tied :
  exists d,
    as_dict label_as_dict label_name tied = Ok d
    /\ d_labels d = [(2, "east"); (1, "west"); (3, "west")]
    /\ map nd_id (d_notes d) = [Some 2; Some 1; Some 3].
Proof. eexists. split; [reflexivity|]. split; reflexivity. Qed.

Lemma as_dict_keeps_order_of_ties_witness :
  exists d,
    as_dict label_as_dict label_name tied = Ok d
    /\ filter (fun x => String.eqb (label_name x) "west") (d_labels d)
       = [(1, "west"); (3, "west")].
Proof.
  destruct as_dict_tied as (d & Hd & _).
  exists d. split; [exact Hd|].
  exact (proj1 (as_dict_keeps_order_of_ties label_as_dict label_name tied d Hd)
           "west").
Defined.

Lemma as_dict_labels_order_independent_witness :
  exists d d',
    as_dict label_as_dict label_name stored = Ok d
    /\ as_dict label_as_dict label_name stored_reversed = Ok d'
    /\ d_labels d = d_labels d'.
Proof.
  destruct as_dict_stored as (d & Hd & _).
  assert (Hd' : exists d', as_dict label_as_dict label_name stored_reversed = Ok d')
    by (eexists; reflexivity).
  destruct Hd' as (d' & Hd').
  exists d, d'. split; [exact Hd|split; [exact Hd'|]].
  apply (as_dict_labels_order_independent label_as_dict label_name
           stored stored_reversed d d' Hd Hd').
  - apply Permutation_rev.
  - simpl. repeat constructor; simpl; intuition discriminate.
Defined.

(** X10.  A note constructed without [created_at] has none until the
    database fills it in, and [as_dict] on it raises [AttributeError]; one
    constructed with a [datetime] gets the dictionary of its arguments with
    [created_at] in ISO format and no [id]; a text is parsed first, and
    construction fails with the parser's exception when it does not
    parse. *)
Theorem note_init_as_dict
    (dateutil_parse : string -> result datetime)
    (category body : option string) (profile_id : option Z) :
  (exists n,
     ProfileNote_init dateutil_parse category body profile_id NoDate = Ok n
     /\ ProfileNote_as_dict n = Raise AttributeError)
  /\ (forall t,
        exists n,
          ProfileNote_init dateutil_parse category body profile_id (ADatetime t)
          = Ok n
          /\ ProfileNote_as_dict n
             = Ok {| nd_id := None; nd_category := category; nd_body := body;
                     nd_profile_id := profile_id;
                     nd_created_at := isoformat t |})
  /\ (forall s,
        ProfileNote_init dateutil_parse category body profile_id (AText s)
        = match dateutil_parse s with
          | Ok t => ProfileNote_init dateutil_parse category body profile_id
                      (ADatetime t)
          | Raise e => Raise e
          end).
Proof.
  split; [|split].
  - eexists. split; reflexivity.
  - intros t. eexists. split; reflexivity.
  - intros s. unfold ProfileNote_init. simpl.
    destruct (dateutil_parse s); reflexivity.
Qed.

(** Constructing a [ProfileUsername] consults the parser for textual
    dates only: with [None] or a [datetime] for both dates it succeeds
    whatever the parser, storing them as given; with texts it builds what
    the parsed dates build, and fails with the parser's exception, the one
    of [start_date] first, when a text does not parse. *)
Lemma username_init_dates
    (dateutil_parse : string -> result datetime) (username_ : option string) :
  (forall a b : option datetime,
     ProfileUsername_init dateutil_parse username_
       (match a with Some t => ADatetime t | None => NoDate end)
       (match b with Some t => ADatetime t | None => NoDate end)
     = Ok {| pu_id := None; pu_username := username_;
             pu_start_date := a; pu_end_date := b; pu_profile_id := None |})
  /\ (forall s1 s2,
        ProfileUsername_init dateutil_parse username_ (AText s1) (AText s2)
        = match dateutil_parse s1 with
          | Ok t1 =>
              match dateutil_parse s2 with
              | Ok t2 => ProfileUsername_init dateutil_parse username_
                           (ADatetime t1) (ADatetime t2)
              | Raise e => Raise e
              end
          | Raise e => Raise e
          end).
Proof.
  split.
  - intros [a|] [b|]; reflexivity.
  - intros s1 s2. unfold ProfileUsername_init. simpl.
    destruct (dateutil_parse s1); simpl; [|reflexivity].
    destruct (dateutil_parse s2); reflexivity.
Qed.

End ConstructorFacts.

(** ** Decimal numerals and the order of dates *)

Section DigitFacts.

Import Decimal DecimalFacts DecimalPos.Unsigned.
Import Py Builtins.

Local Open Scope N_scope.

Lemma value_cons (d : uint) :
  d <> Nil -> Pos.of_uint d = hd d * 10 ^ usize (tl d) + Pos.of_uint (tl d).
Proof.
  intros Hd. rewrite (of_uint_alt d).
  destruct d; try congruence; unfold rev; simpl revapp;
    rewrite of_lu_revapp; simpl of_lu; simpl hd; simpl tl;
    rewrite (of_uint_alt d); lia.
Qed.

Lemma usize_cons (d : uint) : d <> Nil -> usize d = N.succ (usize (tl d)).
Proof. destruct d; simpl; congruence. Qed.

Lemma hd_bound (d : uint) : hd d <= 9.
Proof. destruct d; simpl; lia. Qed.

Lemma value_bound (d : uint) : Pos.of_uint d < 10 ^ usize d.
Proof.
  induction d; try (simpl; lia);
    match goal with |- Pos.of_uint ?u < _ =>
      rewrite (value_cons u) by discriminate;
      rewrite (usize_cons u) by discriminate;
      pose proof (hd_bound u) end;
    simpl hd in *; simpl tl in *; rewrite N.pow_succ_r'; lia.
Qed.

Lemma N_compare_add_l (a b c : N) : N.compare (a + b) (a + c) = N.compare b c.
Proof.
  destruct (N.compare_spec b c) as [->|H|H].
  - apply N.compare_refl.
  - apply N.compare_lt_iff. lia.
  - apply N.compare_gt_iff. lia.
Qed.

Lemma compare_digits (d1 : uint) :
  forall d2,
    usize d1 = usize d2 ->
    String.compare (NilEmpty.string_of_uint d1) (NilEmpty.string_of_uint d2)
    = N.compare (Pos.of_uint d1) (Pos.of_uint d2).
Proof.
  induction d1; intros d2 Hsz; destruct d2;
    try (simpl in Hsz; lia); try reflexivity;
    match goal with
    | |- _ = N.compare (Pos.of_uint ?u1) (Pos.of_uint ?u2) =>
        rewrite (value_cons u1), (value_cons u2) by discriminate;
        rewrite (usize_cons u1), (usize_cons u2) in Hsz by discriminate;
        apply N.succ_inj in Hsz; simpl tl in *; simpl hd;
        pose proof (value_bound d1) as Hb1; pose proof (value_bound d2) as Hb2;
        rewrite Hsz in Hb1 |- *;
        cbn [NilEmpty.string_of_uint String.compare];
        match goal with
        | |- context [Ascii.compare ?a ?b] =>
            let c := eval vm_compute in (Ascii.compare a b) in
            change (Ascii.compare a b) with c
        end;
        cbv iota;
        first [ rewrite (IHd1 _ Hsz); symmetry; apply N_compare_add_l
              | symmetry; apply N.compare_lt_iff; lia
              | symmetry; apply N.compare_gt_iff; lia ]
    end.
Qed.

Lemma digits_length (d : uint) :
  String.length (NilEmpty.string_of_uint d) = N.to_nat (usize d).
Proof. induction d; simpl; rewrite ?N2Nat.inj_succ; congruence. Qed.

Lemma zeros_digits (k : nat) (d : uint) :
  (zeros k ++ NilEmpty.string_of_uint d)%string
  = NilEmpty.string_of_uint (Nat.iter k D0 d).
Proof. induction k as [|k IH]; simpl; congruence. Qed.

Lemma usize_zeros (k : nat) (d : uint) :
  usize (Nat.iter k D0 d) = N.of_nat k + usize d.
Proof. induction k as [|k IH]; [reflexivity|]. simpl Nat.iter. simpl usize. lia. Qed.

Lemma value_zeros (k : nat) (d : uint) :
  Pos.of_uint (Nat.iter k D0 d) = Pos.of_uint d.
Proof. induction k as [|k IH]; simpl; auto. Qed.

Lemma str_of_int_digits (n : Z) :
  (0 <= n)%Z ->
  str_of_int n = NilEmpty.string_of_uint (N.to_uint (Z.to_N n)).
Proof.
  intros Hn. unfold str_of_int. destruct n as [|p|p]; try lia; [reflexivity|].
  pose proof (to_uint_nonnil p) as Hnn.
  cbn [Z.to_int NilZero.string_of_int Z.to_N N.to_uint].
  unfold NilZero.string_of_uint.
  destruct (Pos.to_uint p) eqn:E; congruence.
Qed.

Lemma to_uint_value (m : N) : Pos.of_uint (N.to_uint m) = m.
Proof. destruct m; [reflexivity|]. apply of_to. Qed.

Lemma to_uint_size (m : N) (w : N) :
  1 <= w -> m < 10 ^ w -> usize (N.to_uint m) <= w.
Proof.
  intros Hw Hm. destruct m as [|p]; [simpl; lia|].
  simpl N.to_uint.
  set (u := Pos.to_uint p).
  assert (Hval : Pos.of_uint u = N.pos p) by apply of_to.
  assert (Hnorm : unorm u = u).
  { pose proof (to_of u) as H. rewrite Hval in H. simpl in H. now symmetry. }
  assert (Hhd : 1 <= hd u /\ u <> Nil).
  { pose proof (to_uint_nonzero p) as Hnz. fold u in Hnz.
    unfold unorm in Hnorm.
    destruct (nzhead u) eqn:Hz; try (now subst u; congruence).
    all: rewrite <- Hnorm; simpl; split; try lia; try discriminate.
    exfalso. exact (nzhead_nonzero _ _ Hz). }
  destruct Hhd as [Hhd Hnil].
  rewrite (value_cons u Hnil) in Hval.
  rewrite (usize_cons u Hnil).
  destruct (N.le_gt_cases (N.succ (usize (tl u))) w) as [|Hgt]; [assumption|].
  exfalso.
  assert (Hpow : 10 ^ w <= 10 ^ usize (tl u))
    by (apply N.pow_le_mono_r; lia).
  nia.
Qed.

(** A number below [10 ^ w], padded to [w] digits, is a numeral of [w] digits
    of that value. *)
Lemma pad_digits (w : nat) (n : Z) :
  (1 <= w)%nat -> (0 <= n < 10 ^ Z.of_nat w)%Z ->
  exists d,
    pad w n = NilEmpty.string_of_uint d
    /\ usize d = N.of_nat w
    /\ Pos.of_uint d = Z.to_N n.
Proof.
  intros Hw Hn. unfold pad. cbv zeta.
  rewrite (str_of_int_digits n) by lia.
  set (u := N.to_uint (Z.to_N n)).
  assert (Hsz : usize u <= N.of_nat w).
  { apply to_uint_size; [lia|].
    assert (H : (Z.of_N (Z.to_N n) < Z.of_N (10 ^ N.of_nat w))%Z).
    { rewrite N2Z.inj_pow, Z2N.id, nat_N_Z by lia. simpl Z.of_N. lia. }
    lia. }
  rewrite digits_length, zeros_digits.
  eexists. split; [reflexivity|split].
  - rewrite usize_zeros. lia.
  - rewrite value_zeros. apply to_uint_value.
Qed.

Lemma pad_compare (w : nat) (a b : Z) :
  (1 <= w)%nat ->
  (0 <= a < 10 ^ Z.of_nat w)%Z -> (0 <= b < 10 ^ Z.of_nat w)%Z ->
  String.compare (pad w a) (pad w b) = Z.compare a b.
Proof.
  intros Hw Ha Hb.
  destruct (pad_digits w a Hw Ha) as (da & Ea & Hsa & Hva).
  destruct (pad_digits w b Hw Hb) as (db & Eb & Hsb & Hvb).
  rewrite Ea, Eb, compare_digits by congruence.
  rewrite Hva, Hvb. rewrite <- Z2N.inj_compare by lia. reflexivity.
Qed.

Lemma pad_length (w : nat) (n : Z) :
  (1 <= w)%nat -> (0 <= n < 10 ^ Z.of_nat w)%Z ->
  String.length (pad w n) = w.
Proof.
  intros Hw Hn. destruct (pad_digits w n Hw Hn) as (d & E & Hs & _).
  rewrite E, digits_length, Hs. apply Nat2N.id.
Qed.

End DigitFacts.


Section CalendarFacts.

Import Py Builtins Model Calendar ModelSamples MoreSamples.

Lemma compare_append (s1 : string) :
  forall s2 t1 t2,
    String.length s1 = String.length s2 ->
    String.compare (s1 ++ t1) (s2 ++ t2)
    = then_ (String.compare s1 s2) (String.compare t1 t2).
Proof.
  induction s1 as [|a s1 IH]; intros [|b s2] t1 t2 Hlen; simpl in *;
    try discriminate; [reflexivity|].
  destruct (Ascii.compare a b); try reflexivity.
  apply IH. congruence.
Qed.

Lemma compare_same_head (c : ascii) (s t : string) :
  String.compare (String c s) (String c t) = String.compare s t.
Proof.
  simpl. unfold Ascii.compare. now rewrite N.compare_refl.
Qed.

Lemma compare_field (w : nat) (a b : Z) (sep : ascii) (ra rb : string) :
  (1 <= w)%nat ->
  0 <= a < 10 ^ Z.of_nat w -> 0 <= b < 10 ^ Z.of_nat w ->
  String.compare (pad w a ++ String sep EmptyString ++ ra)
                 (pad w b ++ String sep EmptyString ++ rb)
  = then_ (a ?= b) (String.compare ra rb).
Proof.
  intros Hw Ha Hb.
  rewrite compare_append by (rewrite !pad_length; auto).
  rewrite pad_compare by auto.
  cbn [append]. now rewrite compare_same_head.
Qed.

Lemma compare_last_field (w : nat) (a b : Z) (ra rb : string) :
  (1 <= w)%nat ->
  0 <= a < 10 ^ Z.of_nat w -> 0 <= b < 10 ^ Z.of_nat w ->
  String.compare (pad w a ++ ra) (pad w b ++ rb)
  = then_ (a ?= b) (String.compare ra rb).
Proof.
  intros Hw Ha Hb.
  rewrite compare_append by (rewrite !pad_length; auto).
  now rewrite pad_compare by auto.
Qed.

Lemma compare_fraction (a b : Z) :
  0 <= a < 10 ^ 6 -> 0 <= b < 10 ^ 6 ->
  String.compare (if Z.eqb a 0 then "" else "." ++ pad 6 a)
                 (if Z.eqb b 0 then "" else "." ++ pad 6 b)
  = (a ?= b).
Proof.
  intros Ha Hb.
  destruct (Z.eqb_spec a 0) as [->|Hna]; destruct (Z.eqb_spec b 0) as [->|Hnb].
  - reflexivity.
  - cbn [append String.compare]. symmetry. apply Z.compare_lt_iff. lia.
  - cbn [append String.compare]. symmetry. apply Z.compare_gt_iff. lia.
  - cbn [append]. rewrite compare_same_head.
    apply (pad_compare 6); lia.
Qed.

Lemma in_range_bounds (d : datetime) :
  in_range d = true ->
  (0 <= year d < 10 ^ 4) /\ (0 <= month d < 10 ^ 2) /\ (0 <= day d < 10 ^ 2)
  /\ (0 <= hour d < 10 ^ 2) /\ (0 <= minute d < 10 ^ 2)
  /\ (0 <= second d < 10 ^ 2) /\ (0 <= microsecond d < 10 ^ 6).
Proof.
  unfold in_range, within. rewrite !andb_true_iff, !Z.leb_le. lia.
Qed.


Lemma string_append_nil_r (s : string) : (s ++ "")%string = s.
Proof. induction s as [|a s IH]; simpl; congruence. Qed.

(** The text of a naive date orders as the date does. *)
Lemma isoformat_compare (a b : datetime) :
  in_range a = true -> in_range b = true ->
  naive a = true -> naive b = true ->
  String.compare (isoformat a) (isoformat b) = compare_datetime a b.
Proof.
  intros Ha Hb Hna Hnb.
  apply in_range_bounds in Ha, Hb.
  destruct Ha as (Ha1 & Ha2 & Ha3 & Ha4 & Ha5 & Ha6 & Ha7).
  destruct Hb as (Hb1 & Hb2 & Hb3 & Hb4 & Hb5 & Hb6 & Hb7).
  unfold isoformat, compare_datetime.
  unfold naive in Hna, Hnb.
  destruct (utcoffset a); [discriminate|].
  destruct (utcoffset b); [discriminate|].
  cbn [offset_text]. rewrite !string_append_nil_r.
  rewrite (compare_field 4) by (auto; lia).
  rewrite !(compare_field 2) by (auto; lia).
  rewrite (compare_last_field 2) by (auto; lia).
  now rewrite compare_fraction by lia.
Qed.

(** With offsets the text does not order as the instants do: ten o'clock
    at five hours east is three hours before eight o'clock at UTC, and its
    text comes after. *)
Example isoformat_aware_out_of_order :
  isoformat ten_east = "2016-02-03T10:00:00+05:00"
  /\ isoformat eight_utc = "2016-02-03T08:00:00+00:00"
  /\ String.compare (isoformat ten_east) (isoformat eight_utc) = Gt.
Proof. repeat split. Qed.




Lemma insert_forall2 {A B : Type} (R : A -> B -> Prop)
    (keyA : A -> string) (keyB : B -> string) (reverse : bool) :
  (forall a b, R a b -> keyA a = keyB b) ->
  forall x y l l',
    R x y -> Forall2 R l l' ->
    Forall2 R (insert (stays_before keyA reverse) x l)
              (insert (stays_before keyB reverse) y l').
Proof.
  intros Hkey x y l l' Hxy Hall.
  induction Hall as [|a b l l' Hab Hall IH]; simpl; [repeat constructor; auto|].
  assert (E : stays_before keyA reverse a x = stays_before keyB reverse b y).
  { unfold stays_before. now rewrite (Hkey _ _ Hab), (Hkey _ _ Hxy). }
  rewrite E. destruct (stays_before keyB reverse b y); repeat constructor; auto.
Qed.

(** Sorting two lists that correspond element by element, by keys that
    agree, gives lists that correspond. *)
Lemma sorted_forall2 {A B : Type} (R : A -> B -> Prop)
    (keyA : A -> string) (keyB : B -> string) (reverse : bool) :
  (forall a b, R a b -> keyA a = keyB b) ->
  forall l l',
    Forall2 R l l' ->
    Forall2 R (sorted keyA reverse l) (sorted keyB reverse l').
Proof.
  intros Hkey l l' Hall.
  induction Hall as [|a b l l' Hab Hall IH]; [constructor|].
  rewrite !sorted_cons. now apply insert_forall2.
Qed.

Lemma strongly_sorted_impl_in {A : Type} (R R' : A -> A -> Prop) (l : list A) :
  (forall a b, In a l -> In b l -> R a b -> R' a b) ->
  StronglySorted R l -> StronglySorted R' l.
Proof.
  intros Himpl Hs. induction Hs as [|a l Hs IH Hall]; constructor.
  - apply IH. intros x y Hx Hy. apply Himpl; now right.
  - rewrite Forall_forall in *. intros b Hb.
    apply Himpl; [now left|now right|now apply Hall].
Qed.

Lemma note_as_dict_created (n : ProfileNote) (nd : note_dict) :
  ProfileNote_as_dict n = Ok nd -> created_text n = nd_created_at nd.
Proof.
  unfold ProfileNote_as_dict, created_text.
  destruct (note_created_at n); [|discriminate]. now intros [= <-].
Qed.

Section WithLabelTypes2.

Context {Label label_dict float : Type}.
Context (label_as_dict : Label -> label_dict) (label_name : label_dict -> string).


(** X12.  For notes with naive dates, the [notes] of the dictionary are the
    profile's notes from the newest to the oldest: when the [created_at] of
    every note is a naive date Python can hold, the dictionaries are those
    of the notes rearranged so that no note stands before one created after
    it.  (With aware dates the texts need not order as the dates do; see
    [isoformat_aware_out_of_order].) *)
Theorem as_dict_notes_newest_first
    (self : Profile Label float) (d : profile_dict label_dict float) :
  as_dict label_as_dict label_name self = Ok d ->
  Forall (fun n => forall t, note_created_at n = Some t ->
                             in_range t = true /\ naive t = true)
    (notes self) ->
  exists ns,
    Permutation (notes self) ns
    /\ Forall2 (fun n nd => ProfileNote_as_dict n = Ok nd) ns (d_notes d)
    /\ StronglySorted not_older ns.
Proof.
  unfold as_dict. intros H Hrange.
  destruct (comprehension ProfileNote_as_dict (notes self)) as [nds|] eqn:Hns;
    [|discriminate].
  simpl in H.
  destruct (last_update self); [|discriminate]. simpl in H.
  destruct (site_name self); [|discriminate]. simpl in H.
  injection H as <-. simpl.
  exists (sorted created_text true (notes self)).
  split; [apply sorted_perm|split].
  - apply (sorted_forall2 (fun n nd => ProfileNote_as_dict n = Ok nd)).
    + intros ? ?. apply note_as_dict_created.
    + now apply comprehension_map.
  - eapply strongly_sorted_impl_in; [|apply sorted_in_order].
    intros na nb Ha Hb Hab.
    assert (Hin : forall x, In x (sorted created_text true (notes self)) ->
                            In x (notes self)).
    { intros x Hx. eapply Permutation_in; [|exact Hx].
      apply Permutation_sym, sorted_perm. }
    rewrite Forall_forall in Hrange.
    pose proof (Hrange _ (Hin _ Ha)) as Hra.
    pose proof (Hrange _ (Hin _ Hb)) as Hrb.
    unfold not_older. unfold in_order, created_text in Hab.
    destruct (note_created_at na) as [ta|]; [|exact I].
    destruct (note_created_at nb) as [tb|]; [|exact I].
    unfold String.leb in Hab.
    destruct (Hra ta eq_refl) as [Hta Hnta].
    destruct (Hrb tb eq_refl) as [Htb Hntb].
    rewrite (isoformat_compare tb ta) in Hab by auto.
    intros Hgt. rewrite Hgt in Hab. discriminate.
Qed.

End WithLabelTypes2.

Example as_dict_stored_newest_first :
  exists d,
    as_dict label_as_dict label_name stored = Ok d
    /\ map nd_id (d_notes d) = [Some 2; Some 3; Some 1]
    /\ String.length (d_last_update d) = 19%nat.
Proof. eexists. split; [reflexivity|]. split; reflexivity. Qed.


Lemma as_dict_notes_newest_first_witness :
  exists d ns,
    as_dict label_as_dict label_name stored = Ok d
    /\ Permutation (notes stored) ns
    /\ Forall2 (fun n nd => ProfileNote_as_dict n = Ok nd) ns (d_notes d)
    /\ StronglySorted not_older ns.
Proof.
  destruct as_dict_stored as (d & Hd & _).
  assert (Hr : Forall (fun n => forall t, note_created_at n = Some t ->
                                          in_range t = true /\ naive t = true)
                      (notes stored)).
  { simpl. repeat (apply Forall_cons; [intros t [= <-]; split; reflexivity|]).
    apply Forall_nil. }
  destruct (as_dict_notes_newest_first label_as_dict label_name stored d Hd Hr)
    as (ns & H1 & H2 & H3).
  exists d, ns. auto.
Defined.

End CalendarFacts.
